(** * RC522 reader over SPI: a shallow embedding of [rc522_spi_library.py]

    The library talks to three collaborators: the SPI channel
    ([spidev.SpiDev.xfer2]), the reset line ([gpiod]) and the wall clock
    ([time.time]).  They are modelled by one environment that scripts what
    the collaborators answer and records every call made to them.  The
    methods of [RC522SPILibrary] become computations over that environment
    and the attributes of [self]. *)

From Stdlib Require Import Ascii String.
From Stdlib Require Import ZArith QArith List Bool Lia Lqa.
Import ListNotations.

Close Scope Q_scope.
Open Scope Z_scope.

(** ** Constants *)

Module RC522Registers.
Definition COMMAND_REG : Z := 0x01.
Definition COM_IRQ_REG : Z := 0x04.
Definition DIV_IRQ_REG : Z := 0x05.
Definition ERROR_REG : Z := 0x06.
Definition STATUS2_REG : Z := 0x08.
Definition FIFO_DATA_REG : Z := 0x09.
Definition FIFO_LEVEL_REG : Z := 0x0A.
Definition CONTROL_REG : Z := 0x0C.
Definition BIT_FRAMING_REG : Z := 0x0D.
Definition TX_CONTROL_REG : Z := 0x14.
Definition CRC_RESULT_REG_MSB : Z := 0x21.
Definition CRC_RESULT_REG_LSB : Z := 0x22.
Definition VERSION_REG : Z := 0x37.
Definition T_MODE_REG : Z := 0x2A.
Definition T_PRESCALER_REG : Z := 0x2B.
Definition T_RELOAD_REG_H : Z := 0x2C.
Definition T_RELOAD_REG_L : Z := 0x2D.
Definition MODE_REG : Z := 0x11.
Definition TX_AUTO_REG : Z := 0x15.
End RC522Registers.

Module RC522Commands.
Definition IDLE : Z := 0x00.
Definition CALC_CRC : Z := 0x03.
Definition TRANSCEIVE : Z := 0x0C.
Definition MF_AUTHENT : Z := 0x0E.
Definition SOFT_RESET : Z := 0x0F.
End RC522Commands.

Module MifareCommands.
Definition REQUEST_A : Z := 0x26.
Definition ANTICOLL_1 : Z := 0x93.
Definition SELECT_1 : Z := 0x93.
Definition HALT : Z := 0x50.
Definition READ : Z := 0x30.
Definition AUTH_A : Z := 0x60.
End MifareCommands.

Module StatusCodes.
Inductive t : Set := OK | ERROR | TIMEOUT | AUTH_ERROR.

(** The integer each status stands for in the source. *)
Definition code (s : t) : Z :=
  match s with OK => 0 | ERROR => 1 | TIMEOUT => 3 | AUTH_ERROR => 5 end.

Definition eqb (a b : t) : bool := code a =? code b.
End StatusCodes.

Import RC522Registers RC522Commands MifareCommands.
Import StatusCodes (OK, ERROR, TIMEOUT, AUTH_ERROR).

(** ** The environment *)

(** Calls made to the collaborators, in the order they happen.  A two-byte
    SPI transfer is recorded as the chip decodes it. *)
Inductive event : Type :=
| RegRead (reg v : Z)          (* read transfer of register [reg], answered [v] *)
| RegWrite (reg v : Z)         (* write transfer of [v] to register [reg] *)
| Clock (t : Q)             (* [time.time()] returned [t] *)
| Sleep (d : Q)             (* [time.sleep(d)] *)
| SpiOpen (bus dev : Z)     (* [spi.open(bus, dev)] *)
| SpiClose                  (* [spi.close()] *)
| LineRequest (pin : Z)     (* [rst_line.request(...)] *)
| SetValue (v : Z)          (* [rst_line.set_value(v)] *)
| LineRelease               (* [rst_line.release()] *)
| ChipClose.                (* [gpio_chip.close()] *)

(** Exceptions the modelled code can raise. *)
Inductive exn : Set :=
| RC522CommunicationError
| AttributeError            (* attribute of [self] never assigned *)
| UnboundLocalError         (* local variable read before assignment *)
| OSError.                  (* [gpiod] refusing a released line or closed chip *)

(** Where acquiring the reset line fails, if it does. *)
Inductive gpio_fault : Set := NoFault | NoChip | NoLine | LineBusy.

Record state : Type := mkState {
  (* collaborators *)
  chip : Z -> list Z;       (* per register: the bytes its next reads return *)
  clock : list Q;           (* the next readings of [time.time()] *)
  hw_libs : bool;           (* [spidev] and [gpiod] were importable *)
  fault : gpio_fault;
  gpio_strict : bool;       (* [gpiod] raises on a released line / closed chip *)
  log : list event;
  (* attributes of [self]; [None] when never assigned *)
  spi : option bool;        (* [Some true]: channel open *)
  gpio_chip : option bool;  (* [Some true]: chip handle open *)
  rst_line : option bool;   (* [Some true]: line requested *)
  _initialized : option bool
}.

Definition set_chip (s : state) (c : Z -> list Z) : state :=
  mkState c (clock s) (hw_libs s) (fault s) (gpio_strict s) (log s)
          (spi s) (gpio_chip s) (rst_line s) (_initialized s).
Definition set_clock (s : state) (c : list Q) : state :=
  mkState (chip s) c (hw_libs s) (fault s) (gpio_strict s) (log s)
          (spi s) (gpio_chip s) (rst_line s) (_initialized s).
Definition set_log (s : state) (l : list event) : state :=
  mkState (chip s) (clock s) (hw_libs s) (fault s) (gpio_strict s) l
          (spi s) (gpio_chip s) (rst_line s) (_initialized s).
Definition set_spi (s : state) (v : option bool) : state :=
  mkState (chip s) (clock s) (hw_libs s) (fault s) (gpio_strict s) (log s)
          v (gpio_chip s) (rst_line s) (_initialized s).
Definition set_gpio_chip (s : state) (v : option bool) : state :=
  mkState (chip s) (clock s) (hw_libs s) (fault s) (gpio_strict s) (log s)
          (spi s) v (rst_line s) (_initialized s).
Definition set_rst_line (s : state) (v : option bool) : state :=
  mkState (chip s) (clock s) (hw_libs s) (fault s) (gpio_strict s) (log s)
          (spi s) (gpio_chip s) v (_initialized s).
Definition set_initialized (s : state) (v : option bool) : state :=
  mkState (chip s) (clock s) (hw_libs s) (fault s) (gpio_strict s) (log s)
          (spi s) (gpio_chip s) (rst_line s) v.

(** ** Computations: state, exceptions, and a clock script that may run out *)

Inductive outcome (A : Type) : Type :=
| Ret (a : A) (s : state)
| Raise (e : exn) (s : state)
| Hang.                     (* the clock script ended: the run is not described further *)
Arguments Ret {A} a s.
Arguments Raise {A} e s.
Arguments Hang {A}.

Definition M (A : Type) : Type := state -> outcome A.

Definition ret {A} (a : A) : M A := fun s => Ret a s.
Definition raise {A} (e : exn) : M A := fun s => Raise e s.
Definition bind {A B} (c : M A) (k : A -> M B) : M B :=
  fun s => match c s with
           | Ret a s1 => k a s1
           | Raise e s1 => Raise e s1
           | Hang => Hang
           end.

Notation "x <- c ;; k" := (bind c (fun x => k))
  (at level 61, c at next level, right associativity).
Notation "c ;; k" := (bind c (fun _ => k))
  (at level 61, right associativity).

Definition emit (e : event) : M unit :=
  fun s => Ret tt (set_log s (log s ++ [e])).

(** Python truthiness of an integer. *)
Definition truthy (z : Z) : bool := negb (z =? 0).

(** *** SPI: [spi.xfer2]

    The chip's side of a two-byte transfer (MFRC522 address byte: bit 7 set
    for a read, bits 6..1 the register).  A read is answered from the
    register's script, [0] once the script is used up.  Faults of the
    transport are not modelled: a transfer always completes. *)
Definition upd (c : Z -> list Z) (reg : Z) (l : list Z) : Z -> list Z :=
  fun r => if r =? reg then l else c r.

Definition xfer2 (out : list Z) : M (list Z) :=
  fun s =>
    match out with
    | [a; b] =>
        let reg := Z.land (Z.shiftr a 1) 0x3F in
        if Z.testbit a 7 then
          let v := hd 0 (chip s reg) in
          Ret [0; v]
              (set_log (set_chip s (upd (chip s) reg (tl (chip s reg))))
                       (log s ++ [RegRead reg v]))
        else Ret [0; 0] (set_log s (log s ++ [RegWrite reg b]))
    | _ => Ret (map (fun _ => 0) out) s
    end.

(** *** Clock: [time.time] and [time.sleep]

    Readings are exact rationals in seconds, so differences and comparisons
    of readings are exact.  A call of [time.time()] takes the next reading
    of the script; when none is left the run is cut off ([Hang]). *)
Definition time : M Q :=
  fun s => match clock s with
           | [] => Hang
           | t :: ts => Ret t (set_log (set_clock s ts) (log s ++ [Clock t]))
           end.

Definition sleep (d : Q) : M unit := emit (Sleep d).

(** [a < b] and [a >= b] on clock readings. *)
Definition Qltb (a b : Q) : bool := negb (Qle_bool b a).
Definition Qgeb (a b : Q) : bool := Qle_bool b a.

(** ** Register access *)

Definition _write_register (reg value : Z) : M unit :=
  xfer2 [Z.land (Z.shiftl reg 1) 0x7E; value] ;; ret tt.

Definition _read_register (reg : Z) : M Z :=
  r <- xfer2 [Z.lor (Z.land (Z.shiftl reg 1) 0x7E) 0x80; 0] ;;
  ret (nth 1 r 0).

Definition _set_bit_mask (reg mask : Z) : M unit :=
  current <- _read_register reg ;;
  _write_register reg (Z.lor current mask).

Definition _clear_bit_mask (reg mask : Z) : M unit :=
  current <- _read_register reg ;;
  _write_register reg (Z.land current (Z.lnot mask)).

(** ** The reset line and the handles of [self] *)

Definition get {A} (f : state -> A) : M A := fun s => Ret (f s) s.
Definition modify (f : state -> state) : M unit := fun s => Ret tt (f s).

(** A method call on a [gpiod] handle held in attribute [attr].  The call is
    recorded; on a handle that is no longer live it raises when the library
    is strict and does nothing otherwise. *)
Definition gpio_call (attr : state -> option bool) (e : event) : M unit :=
  h <- get attr ;;
  match h with
  | None => raise AttributeError
  | Some live =>
      emit e ;;
      strict <- get gpio_strict ;;
      if live || negb strict then ret tt else raise OSError
  end.

Definition set_value (v : Z) : M unit := gpio_call rst_line (SetValue v).

Definition release : M unit :=
  gpio_call rst_line LineRelease ;;
  modify (fun s => set_rst_line s (Some false)).

Definition close_gpio_chip : M unit :=
  gpio_call gpio_chip ChipClose ;;
  modify (fun s => set_gpio_chip s (Some false)).

(** [spi.close()] closes the channel and is harmless on a closed one. *)
Definition close_spi : M unit :=
  h <- get spi ;;
  match h with
  | None => raise AttributeError
  | Some _ => emit SpiClose ;; modify (fun s => set_spi s (Some false))
  end.

(** [hasattr(self, a) and self.a] for a handle object, which is truthy. *)
Definition has_handle (attr : state -> option bool) : M bool :=
  h <- get attr ;;
  ret (match h with Some _ => true | None => false end).

(** ** Chip lifecycle *)

Definition _reset : M unit :=
  set_value 0 ;;
  sleep 0.05%Q ;;
  set_value 1 ;;
  sleep 0.05%Q.

Definition antenna_on : M unit :=
  v <- _read_register TX_CONTROL_REG ;;
  if negb (truthy (Z.land v 0x03)) then _set_bit_mask TX_CONTROL_REG 0x03
  else ret tt.

Definition initialize : M unit :=
  _reset ;;
  _write_register COMMAND_REG SOFT_RESET ;;
  sleep 0.05%Q ;;
  _write_register T_MODE_REG 0x8D ;;
  _write_register T_PRESCALER_REG 0x3E ;;
  _write_register T_RELOAD_REG_L 30 ;;
  _write_register T_RELOAD_REG_H 0 ;;
  _write_register TX_AUTO_REG 0x40 ;;
  _write_register MODE_REG 0x3D ;;
  antenna_on ;;
  modify (fun s => set_initialized s (Some true)).

(** The [try] block of the constructor: each step that fails is re-raised
    as [RC522CommunicationError], leaving the later attributes unassigned. *)
Definition acquire_reset_line (rst_pin : Z) : M unit :=
  f <- get fault ;;
  match f with
  | NoChip => raise RC522CommunicationError
  | _ =>
      modify (fun s => set_gpio_chip s (Some true)) ;;
      match f with
      | NoLine => raise RC522CommunicationError
      | _ =>
          modify (fun s => set_rst_line s (Some false)) ;;
          match f with
          | LineBusy => raise RC522CommunicationError
          | _ =>
              emit (LineRequest rst_pin) ;;
              modify (fun s => set_rst_line s (Some true))
          end
      end
  end.

Definition __init__ (spi_bus spi_device rst_pin : Z) (debug : bool) : M unit :=
  libs <- get hw_libs ;;
  if negb libs then raise RC522CommunicationError
  else
    modify (fun s => set_spi s (Some false)) ;;
    emit (SpiOpen spi_bus spi_device) ;;
    modify (fun s => set_spi s (Some true)) ;;
    acquire_reset_line rst_pin ;;
    modify (fun s => set_initialized s (Some false)) ;;
    initialize.

Definition cleanup : M unit :=
  i <- get _initialized ;;
  match i with
  | None => raise AttributeError
  | Some flag =>
      (if flag then _reset else ret tt) ;;
      has_line <- has_handle rst_line ;;
      (if has_line then release else ret tt) ;;
      has_chip <- has_handle gpio_chip ;;
      (if has_chip then close_gpio_chip else ret tt) ;;
      close_spi
  end.

(** ** Transceive engine *)

Definition wait_irq : Z := 0x30.
Definition irq_en : Z := 0x77.
Definition default_timeout : Q := 0.1%Q.

(** [for byte in send_data: self._write_register(FIFO_DATA_REG, byte)] *)
Fixpoint write_fifo (send_data : list Z) : M unit :=
  match send_data with
  | [] => ret tt
  | byte :: rest => _write_register FIFO_DATA_REG byte ;; write_fifo rest
  end.

(** The polling loop.  [n] is the local of that name: [None] while it is
    unbound.  Every iteration takes one clock reading, so [fuel] larger
    than the clock script is never what stops the loop. *)
Fixpoint poll (fuel : nat) (start_time timeout : Q) (n : option Z)
  : M (option Z) :=
  match fuel with
  | O => fun _ => Hang
  | S fuel' =>
      now <- time ;;
      if Qltb (now - start_time)%Q timeout then
        v <- _read_register COM_IRQ_REG ;;
        if truthy (Z.land v wait_irq) then ret (Some v)
        else poll fuel' start_time timeout (Some v)
      else ret n
  end.

Definition poll_loop (start_time timeout : Q) : M (option Z) :=
  fun s => poll (S (length (clock s))) start_time timeout None s.

(** [for _ in range(fifo_size): back_data.append(read(FIFO_DATA_REG))] *)
Fixpoint read_fifo (count : nat) (back_data : list Z) : M (list Z) :=
  match count with
  | O => ret back_data
  | S count' =>
      v <- _read_register FIFO_DATA_REG ;;
      read_fifo count' (back_data ++ [v])
  end.

Definition _communicate_with_card (command : Z) (send_data : list Z)
    (timeout : Q) : M (StatusCodes.t * list Z * Z) :=
  _write_register COMMAND_REG IDLE ;;
  _write_register COM_IRQ_REG 0x7F ;;
  _set_bit_mask FIFO_LEVEL_REG 0x80 ;;
  write_fifo send_data ;;
  _write_register COMMAND_REG command ;;
  (if command =? TRANSCEIVE then _set_bit_mask BIT_FRAMING_REG 0x80
   else ret tt) ;;
  start_time <- time ;;
  n <- poll_loop start_time timeout ;;
  _clear_bit_mask BIT_FRAMING_REG 0x80 ;;
  now <- time ;;
  if Qgeb (now - start_time)%Q timeout then ret (TIMEOUT, [], 0)
  else
    err <- _read_register ERROR_REG ;;
    if truthy (Z.land err 0x1B) then ret (ERROR, [], 0)
    else
      n <- match n with
           | Some v => ret v
           | None => raise UnboundLocalError
           end ;;
      let status := if truthy (Z.land n 0x01) then ERROR else OK in
      if command =? TRANSCEIVE then
        fifo_size <- _read_register FIFO_LEVEL_REG ;;
        control <- _read_register CONTROL_REG ;;
        let last_bits := Z.land control 0x07 in
        let back_len :=
          if negb (last_bits =? 0) then (fifo_size - 1) * 8 + last_bits
          else fifo_size * 8 in
        let fifo_size := if fifo_size =? 0 then 1 else fifo_size in
        let fifo_size := if fifo_size >? 16 then 16 else fifo_size in
        back_data <- read_fifo (Z.to_nat fifo_size) [] ;;
        ret (status, back_data, back_len)
      else ret (status, [], 0).

(** ** Card discovery *)

Definition request : M (StatusCodes.t * option (list Z)) :=
  _write_register BIT_FRAMING_REG 0x07 ;;
  r <- _communicate_with_card TRANSCEIVE [REQUEST_A] default_timeout ;;
  let '(status, back_data, _) := r in
  if negb (StatusCodes.eqb status OK) || negb (length back_data =? 2)%nat
  then ret (ERROR, None)
  else ret (status, Some back_data).

Definition anticoll : M (StatusCodes.t * option (list Z)) :=
  _write_register BIT_FRAMING_REG 0x00 ;;
  r <- _communicate_with_card TRANSCEIVE [ANTICOLL_1; 0x20] default_timeout ;;
  let '(status, back_data, _) := r in
  if StatusCodes.eqb status OK && (length back_data =? 5)%nat then
    let checksum :=
      fold_left (fun c i => Z.lxor c (nth i back_data 0)) (seq 0 4) 0 in
    if negb (checksum =? nth 4 back_data 0) then ret (ERROR, None)
    else ret (OK, Some (firstn 4 back_data))
  else ret (ERROR, None).

(** ** The card-reading applications

    Both applications poll the reader in a [while True] loop.  What they
    print is returned by the model, one string for each call of [print]; the
    wait at the end of an iteration is the [Sleep] call of the log. *)

(** Python's [format(i, "02X")]: upper-case hexadecimal, padded with a
    zero to two characters; a negative number keeps its sign. *)
Definition hex_digit (d : Z) : ascii :=
  nth (Z.to_nat d) (list_ascii_of_string "0123456789ABCDEF") "0"%char.

Fixpoint hex_digits (fuel : nat) (n : Z) (acc : string) : string :=
  match fuel with
  | O => acc
  | S fuel' =>
      let acc' := String (hex_digit (n mod 16)) acc in
      if n / 16 =? 0 then acc' else hex_digits fuel' (n / 16) acc'
  end.

Definition hex (n : Z) : string :=
  hex_digits (S (Z.to_nat (Z.log2 n))) n EmptyString.

Definition format_02X (i : Z) : string :=
  if i <? 0 then String "-"%char (hex (- i))
  else let h := hex i in
       if (String.length h <? 2)%nat then String "0"%char h else h.

(** [":".join([f"{i:02X}" for i in uid])] *)
Definition uid_str (uid : list Z) : string :=
  String.concat ":" (map format_02X uid).

(** [==] on byte lists and on a value that is a byte list or [None]. *)
Fixpoint bytes_eqb (a b : list Z) : bool :=
  match a, b with
  | [], [] => true
  | x :: a', y :: b' => (x =? y) && bytes_eqb a' b'
  | _, _ => false
  end.

Definition uid_eqb (a b : option (list Z)) : bool :=
  match a, b with
  | None, None => true
  | Some x, Some y => bytes_eqb x y
  | _, _ => false
  end.

(** How one iteration of a polling loop ends when no library exception
    escapes it: with the loop's variables and printed lines, or with
    Python's [TypeError], raised by iterating over [None]. *)
Inductive step (A : Type) : Type :=
| Next (a : A)
| TypeError.
Arguments Next {A} a.
Arguments TypeError {A}.

Definition newline : string := String (ascii_of_nat 10) EmptyString.

(** *** [example.py] *)

Definition card_block (uid : list Z) : list string :=
  [String.append newline "================================";
   "Card detected!";
   String.append "  UID: " (uid_str uid);
   "================================";
   "INFO: You can now use this UID in your own code."]%string.

Definition removed_line : string :=
  String.append newline
                "Card removed. The reader is ready for the next card.".

(** The body of the loop of [main], from the value of [last_uid] on entry
    to its value on exit and the lines printed. *)
Definition main_iteration (last_uid : option (list Z))
  : M (step (option (list Z) * list string)) :=
  r <- request ;;
  let '(status, _) := r in
  body <-
    (if StatusCodes.eqb status OK then
       r' <- anticoll ;;
       let '(status, uid) := r' in
       if StatusCodes.eqb status OK then
         if negb (uid_eqb uid last_uid) then
           match uid with
           | Some bytes => ret (Next (uid, card_block bytes))
           | None => ret TypeError
           end
         else ret (Next (last_uid, []))
       else ret (Next (last_uid, []))
     else
       match last_uid with
       | Some _ => ret (Next (None, [removed_line]))
       | None => ret (Next (last_uid, []))
       end) ;;
  match body with
  | Next x => sleep 0.1 ;; ret (Next x)
  | TypeError => ret TypeError
  end.

(** The first [n] iterations of the loop of [main]; [out] collects the
    printed lines. *)
Fixpoint main_loop (n : nat) (last_uid : option (list Z)) (out : list string)
  : M (step (option (list Z) * list string)) :=
  match n with
  | O => ret (Next (last_uid, out))
  | S n' =>
      r <- main_iteration last_uid ;;
      match r with
      | Next (last_uid', lines) => main_loop n' last_uid' (out ++ lines)
      | TypeError => ret TypeError
      end
  end.

(** *** The example at the end of [rc522_spi_library.py] *)

Definition detected_line (uid : list Z) : string :=
  String.append "Card detected! UID: " (uid_str uid).

Definition library_iteration (last_uid : option (list Z))
  : M (step (option (list Z) * list string)) :=
  r <- request ;;
  let '(status, _) := r in
  body <-
    (if StatusCodes.eqb status OK then
       r' <- anticoll ;;
       let '(status, uid) := r' in
       if StatusCodes.eqb status OK then
         if negb (uid_eqb uid last_uid) then
           match uid with
           | Some bytes => ret (Next (uid, [detected_line bytes]))
           | None => ret TypeError
           end
         else ret (Next (last_uid, []))
       else ret (Next (None, []))
     else ret (Next (None, []))) ;;
  match body with
  | Next x => sleep 0.2 ;; ret (Next x)
  | TypeError => ret TypeError
  end.

Fixpoint library_loop (n : nat) (last_uid : option (list Z))
  (out : list string) : M (step (option (list Z) * list string)) :=
  match n with
  | O => ret (Next (last_uid, out))
  | S n' =>
      r <- library_iteration last_uid ;;
      match r with
      | Next (last_uid', lines) => library_loop n' last_uid' (out ++ lines)
      | TypeError => ret TypeError
      end
  end.

(** * Vocabulary of the properties *)

(** Register addresses fit the six address bits of the SPI address byte. *)
Definition valid_reg (reg : Z) : Prop := 0 <= reg < 64.

(** Bytes that reads of register [reg] returned in a trace, in order. *)
Definition reads (reg : Z) (tr : list event) : list Z :=
  flat_map (fun e => match e with
                     | RegRead r v => if r =? reg then [v] else []
                     | _ => []
                     end) tr.

(** Bytes written to register [reg] in a trace, in order. *)
Definition writes (reg : Z) (tr : list event) : list Z :=
  flat_map (fun e => match e with
                     | RegWrite r v => if r =? reg then [v] else []
                     | _ => []
                     end) tr.

(** Clock readings of a trace, in order. *)
Definition clocks (tr : list event) : list Q :=
  flat_map (fun e => match e with Clock t => [t] | _ => [] end) tr.

(** [returns c s a tr]: run from [s], [c] returns [a] after making exactly
    the calls [tr]. *)
Definition returns {A} (c : M A) (s : state) (a : A) (tr : list event) : Prop :=
  match c s with
  | Ret a' s' => a' = a /\ log s' = log s ++ tr
  | _ => False
  end.

(** The state a run ends in (an empty one if it was cut off). *)
Definition state_after {A} (o : outcome A) : state :=
  match o with
  | Ret _ s | Raise _ s => s
  | Hang => mkState (fun _ => []) [] false NoFault false [] None None None None
  end.


(** A clock that does not run backwards between consecutive readings. *)
Fixpoint nondecreasing (l : list Q) : bool :=
  match l with
  | a :: (b :: _) as rest => Qle_bool a b && nondecreasing rest
  | _ => true
  end.


(** Steps 1 to 4: reset to idle, clear the flags, flush, load, start. *)
Definition prologue (command : Z) (send_data : list Z) (fl0 bf0 : Z)
  : list event :=
  [RegWrite COMMAND_REG IDLE; RegWrite COM_IRQ_REG 0x7F;
   RegRead FIFO_LEVEL_REG fl0; RegWrite FIFO_LEVEL_REG (Z.lor fl0 0x80)]
  ++ map (RegWrite FIFO_DATA_REG) send_data
  ++ [RegWrite COMMAND_REG command]
  ++ (if command =? TRANSCEIVE
      then [RegRead BIT_FRAMING_REG bf0; RegWrite BIT_FRAMING_REG (Z.lor bf0 0x80)]
      else []).

(** The trace of the polling loop, and the value it leaves in [n]. *)
Inductive poll_trace (start_time timeout : Q)
  : option Z -> list event -> option Z -> Prop :=
| poll_deadline n now :
    Qltb (now - start_time)%Q timeout = false ->
    poll_trace start_time timeout n [Clock now] n
| poll_done n now v :
    Qltb (now - start_time)%Q timeout = true ->
    truthy (Z.land v wait_irq) = true ->
    poll_trace start_time timeout n [Clock now; RegRead COM_IRQ_REG v] (Some v)
| poll_again n now v tr n' :
    Qltb (now - start_time)%Q timeout = true ->
    truthy (Z.land v wait_irq) = false ->
    poll_trace start_time timeout (Some v) tr n' ->
    poll_trace start_time timeout n (Clock now :: RegRead COM_IRQ_REG v :: tr) n'.

(** What follows the clock reading of the deadline check, and the result.
    [late] is the outcome of that check and [n] the flags polling left. *)
Inductive ending (command : Z) (n : option Z) (late : bool)
  : list event -> StatusCodes.t * list Z * Z -> Prop :=
| end_timeout :
    late = true ->
    ending command n late [] (TIMEOUT, [], 0)
| end_error err :
    late = false ->
    truthy (Z.land err 0x1B) = true ->
    ending command n late [RegRead ERROR_REG err] (ERROR, [], 0)
| end_plain err v :
    late = false ->
    truthy (Z.land err 0x1B) = false ->
    n = Some v ->
    (command =? TRANSCEIVE) = false ->
    ending command n late [RegRead ERROR_REG err]
           (if truthy (Z.land v 0x01) then ERROR else OK, [], 0)
| end_drain err v fifo_size control back_data :
    late = false ->
    truthy (Z.land err 0x1B) = false ->
    n = Some v ->
    (command =? TRANSCEIVE) = true ->
    length back_data =
      Z.to_nat (let f := if fifo_size =? 0 then 1 else fifo_size in
                if f >? 16 then 16 else f) ->
    ending command n late
           (RegRead ERROR_REG err :: RegRead FIFO_LEVEL_REG fifo_size ::
            RegRead CONTROL_REG control :: map (RegRead FIFO_DATA_REG) back_data)
           (if truthy (Z.land v 0x01) then ERROR else OK,
            back_data,
            if negb (Z.land control 0x07 =? 0)
            then (fifo_size - 1) * 8 + Z.land control 0x07
            else fifo_size * 8).

(** Every returning run of [_communicate_with_card] makes calls of this
    shape: steps 1 to 4, the start reading, the polling loop, the clearing
    of the start-send bit, the final reading, and an ending. *)
Inductive comm_trace (command : Z) (send_data : list Z) (timeout : Q)
  : list event -> StatusCodes.t * list Z * Z -> Prop :=
| comm_run fl0 bf0 start_time polled n bf1 now tail r :
    poll_trace start_time timeout None polled n ->
    ending command n (Qgeb (now - start_time)%Q timeout) tail r ->
    comm_trace command send_data timeout
      (prologue command send_data fl0 bf0
       ++ Clock start_time :: polled
       ++ RegRead BIT_FRAMING_REG bf1
          :: RegWrite BIT_FRAMING_REG (Z.land bf1 (Z.lnot 0x80))
          :: Clock now :: tail)
      r.

(** The calls of [_reset]. *)
Definition reset_pulse : list event :=
  [SetValue 0; Sleep 0.05%Q; SetValue 1; Sleep 0.05%Q].

(** The calls by which [cleanup] lets go of line, chip and channel. *)
Definition teardown : list event := [LineRelease; ChipClose; SpiClose].

(** ** Concrete sessions *)

(** A chip given by the bytes each listed register answers with. *)
Definition script (l : list (Z * list Z)) : Z -> list Z :=
  fun reg => match find (fun p => fst p =? reg) l with
             | Some p => snd p
             | None => []
             end.

(** An initialized session on that chip, with an empty log. *)
Definition session (c : Z -> list Z) (clk : list Q) (strict : bool) : state :=
  mkState c clk true NoFault strict []
          (Some true) (Some true) (Some true) (Some true).

(** A card answers REQUEST_A with the ATQA [04 00] on the second poll. *)
Definition atqa_state : state :=
  session (script [(COM_IRQ_REG, [0x00; 0x30]); (FIFO_LEVEL_REG, [0; 2]);
                   (FIFO_DATA_REG, [0x04; 0x00])])
          [0; 0.01; 0.02; 0.03]%Q true.

(** The calls of the transceive engine on [atqa_state]. *)
Definition atqa_trace : list event :=
  [RegWrite COMMAND_REG IDLE; RegWrite COM_IRQ_REG 0x7F;
   RegRead FIFO_LEVEL_REG 0; RegWrite FIFO_LEVEL_REG 0x80;
   RegWrite FIFO_DATA_REG REQUEST_A; RegWrite COMMAND_REG TRANSCEIVE;
   RegRead BIT_FRAMING_REG 0; RegWrite BIT_FRAMING_REG 0x80;
   Clock 0; Clock 0.01; RegRead COM_IRQ_REG 0x00;
   Clock 0.02; RegRead COM_IRQ_REG 0x30;
   RegRead BIT_FRAMING_REG 0; RegWrite BIT_FRAMING_REG 0; Clock 0.03;
   RegRead ERROR_REG 0; RegRead FIFO_LEVEL_REG 2; RegRead CONTROL_REG 0;
   RegRead FIFO_DATA_REG 0x04; RegRead FIFO_DATA_REG 0x00].



(** No card: the interrupt register stays 0 until the deadline passes. *)
Definition silent_state : state :=
  session (script []) [0; 0.04; 0.08; 0.12; 0.13]%Q true.

(** The calls of the transceive engine on [silent_state]. *)
Definition silent_trace : list event :=
  [RegWrite COMMAND_REG IDLE; RegWrite COM_IRQ_REG 0x7F;
   RegRead FIFO_LEVEL_REG 0; RegWrite FIFO_LEVEL_REG 0x80;
   RegWrite FIFO_DATA_REG REQUEST_A; RegWrite COMMAND_REG TRANSCEIVE;
   RegRead BIT_FRAMING_REG 0; RegWrite BIT_FRAMING_REG 0x80;
   Clock 0; Clock 0.04; RegRead COM_IRQ_REG 0x00;
   Clock 0.08; RegRead COM_IRQ_REG 0x00; Clock 0.12;
   RegRead BIT_FRAMING_REG 0; RegWrite BIT_FRAMING_REG 0; Clock 0.13].

(** The chip reports a finished CALC_CRC command (idle interrupt 0x10). *)
Definition crc_state : state :=
  session (script [(COM_IRQ_REG, [0x10])]) [0; 0.01; 0.02]%Q true.

(** The calls of a CALC_CRC command on [crc_state]. *)
Definition crc_trace : list event :=
  [RegWrite COMMAND_REG IDLE; RegWrite COM_IRQ_REG 0x7F;
   RegRead FIFO_LEVEL_REG 0; RegWrite FIFO_LEVEL_REG 0x80;
   RegWrite FIFO_DATA_REG 0x93; RegWrite FIFO_DATA_REG 0x20;
   RegWrite COMMAND_REG CALC_CRC;
   Clock 0; Clock 0.01; RegRead COM_IRQ_REG 0x10;
   RegRead BIT_FRAMING_REG 0; RegWrite BIT_FRAMING_REG 0; Clock 0.02;
   RegRead ERROR_REG 0].

(** Transmit control reads 0x01: driver 1 enabled, driver 2 disabled. *)
Definition half_on_state : state :=
  session (script [(TX_CONTROL_REG, [0x01])]) [] true.

(** An initialized session with a strict GPIO library. *)
Definition live_session : state := session (script []) [] true.

(** Before the constructor runs: no attribute of [self] is assigned. *)
Definition fresh (f : gpio_fault) : state :=
  mkState (script []) [] true f true [] None None None None.

(** The chip reports a FIFO level of 20 and 3 valid bits in the last byte. *)
Definition overflow_state : state :=
  session (script [(COM_IRQ_REG, [0x30]); (FIFO_LEVEL_REG, [0; 20]);
                   (CONTROL_REG, [0x03])])
          [0; 0.01; 0.02]%Q true.

(** The calls of the transceive engine on [overflow_state]. *)
Definition overflow_trace : list event :=
  [RegWrite COMMAND_REG IDLE; RegWrite COM_IRQ_REG 0x7F;
   RegRead FIFO_LEVEL_REG 0; RegWrite FIFO_LEVEL_REG 0x80;
   RegWrite FIFO_DATA_REG REQUEST_A; RegWrite COMMAND_REG TRANSCEIVE;
   RegRead BIT_FRAMING_REG 0; RegWrite BIT_FRAMING_REG 0x80;
   Clock 0; Clock 0.01; RegRead COM_IRQ_REG 0x30;
   RegRead BIT_FRAMING_REG 0; RegWrite BIT_FRAMING_REG 0; Clock 0.02;
   RegRead ERROR_REG 0; RegRead FIFO_LEVEL_REG 20; RegRead CONTROL_REG 0x03]
  ++ map (RegRead FIFO_DATA_REG) (repeat 0 16).



(** A card answers the anticollision with UID [12 34 56 78] and [checksum]. *)
Definition uid_state (checksum : Z) : state :=
  session (script [(COM_IRQ_REG, [0x30]); (FIFO_LEVEL_REG, [0; 5]);
                   (FIFO_DATA_REG, [0x12; 0x34; 0x56; 0x78; checksum])])
          [0; 0.01; 0.02]%Q true.

(** ** Vocabulary of the further properties *)

(** [only P c]: from every state [c] ends, returning or raising, after
    calls that all satisfy [P]; it is never cut off. *)
Definition only (P : event -> bool) {A} (c : M A) : Prop :=
  forall s,
    match c s with
    | Ret _ s' | Raise _ s' =>
        exists tr, log s' = log s ++ tr /\ forallb P tr = true
    | Hang => False
    end.

(** [keeps f c]: [c] never changes what [f] reads of the state. *)
Definition keeps {X} (f : state -> X) {A} (c : M A) : Prop :=
  forall s,
    match c s with
    | Ret _ s' | Raise _ s' => f s' = f s
    | Hang => True
    end.

(** Calls on the reset line and pauses. *)
Definition pulse_event (e : event) : bool :=
  match e with SetValue _ | Sleep _ => true | _ => false end.

(** Calls that let go of a handle. *)
Definition release_event (e : event) : bool :=
  match e with LineRelease | ChipClose | SpiClose => true | _ => false end.


(** The handles of [self] and the strictness of the GPIO library. *)
Definition handles (s : state) : option bool * option bool * option bool * bool :=
  (spi s, gpio_chip s, rst_line s, gpio_strict s).

(** The calls of [antenna_on] on a chip with scripts [c]. *)
Definition antenna_calls (c : Z -> list Z) : list event :=
  let v := hd 0 (c TX_CONTROL_REG) in
  let again := hd 0 (tl (c TX_CONTROL_REG)) in
  if Z.land v 0x03 =? 0
  then [RegRead TX_CONTROL_REG v; RegRead TX_CONTROL_REG again;
        RegWrite TX_CONTROL_REG (Z.lor again 0x03)]
  else [RegRead TX_CONTROL_REG v].

(** The calls of [initialize] between the reset pulse and [antenna_on]. *)
Definition init_writes : list event :=
  [RegWrite COMMAND_REG SOFT_RESET; Sleep 0.05%Q;
   RegWrite T_MODE_REG 0x8D; RegWrite T_PRESCALER_REG 0x3E;
   RegWrite T_RELOAD_REG_L 30; RegWrite T_RELOAD_REG_H 0;
   RegWrite TX_AUTO_REG 0x40; RegWrite MODE_REG 0x3D].

(** [runs c s a tr s']: from [s], [c] returns [a] in state [s'] after
    making exactly the calls [tr]. *)
Definition runs {A} (c : M A) (s : state) (a : A) (tr : list event)
    (s' : state) : Prop :=
  c s = Ret a s' /\ log s' = log s ++ tr.

(** [frame s s']: the chip scripts, the handles and the flag are the same
    in [s'] as in [s]. *)
Definition frame (s s' : state) : Prop :=
  chip s' = chip s /\ handles s' = handles s /\
  _initialized s' = _initialized s.

(** What [main] reports: a card, or the removal of the card. *)
Inductive report : Type :=
| Card (uid : list Z)
| Gone.

Definition render (r : report) : list string :=
  match r with
  | Card uid => card_block uid
  | Gone => [removed_line]
  end.

(** No card is reported twice in a row, and a removal is reported only
    after a card; [shown] is the card on display when the reports start. *)
Fixpoint reported_once (shown : option (list Z)) (rs : list report) : bool :=
  match rs with
  | [] => true
  | Card uid :: rs' =>
      negb (uid_eqb (Some uid) shown) && reported_once (Some uid) rs'
  | Gone :: rs' =>
      match shown with
      | Some _ => reported_once None rs'
      | None => false
      end
  end.

(** The card on display after the reports [rs]. *)
Fixpoint shown_after (shown : option (list Z)) (rs : list report)
  : option (list Z) :=
  match rs with
  | [] => shown
  | Card uid :: rs' => shown_after (Some uid) rs'
  | Gone :: rs' => shown_after None rs'
  end.

(** ** Further sessions *)

(** The card's answer arrives with a parity error (error register 0x02). *)
Definition parity_error_state : state :=
  session (script [(COM_IRQ_REG, [0x30]); (ERROR_REG, [0x02]);
                   (FIFO_LEVEL_REG, [0; 2]); (FIFO_DATA_REG, [0x04; 0x00])])
          [0; 0.01; 0.02]%Q true.

(** The calls of the transceive engine on [parity_error_state]. *)
Definition parity_error_trace : list event :=
  [RegWrite COMMAND_REG IDLE; RegWrite COM_IRQ_REG 0x7F;
   RegRead FIFO_LEVEL_REG 0; RegWrite FIFO_LEVEL_REG 0x80;
   RegWrite FIFO_DATA_REG REQUEST_A; RegWrite COMMAND_REG TRANSCEIVE;
   RegRead BIT_FRAMING_REG 0; RegWrite BIT_FRAMING_REG 0x80;
   Clock 0; Clock 0.01; RegRead COM_IRQ_REG 0x30;
   RegRead BIT_FRAMING_REG 0; RegWrite BIT_FRAMING_REG 0; Clock 0.02;
   RegRead ERROR_REG 0x02].

(** A clock that stands still at 5 s, for a call with timeout 0. *)
Definition zero_timeout_state : state :=
  session (script [(COM_IRQ_REG, [0x30])]) [5; 5; 5]%Q true.

(** The calls of the transceive engine on [zero_timeout_state]. *)
Definition zero_timeout_trace : list event :=
  [RegWrite COMMAND_REG IDLE; RegWrite COM_IRQ_REG 0x7F;
   RegRead FIFO_LEVEL_REG 0; RegWrite FIFO_LEVEL_REG 0x80;
   RegWrite FIFO_DATA_REG REQUEST_A; RegWrite COMMAND_REG TRANSCEIVE;
   RegRead BIT_FRAMING_REG 0; RegWrite BIT_FRAMING_REG 0x80;
   Clock 5; Clock 5;
   RegRead BIT_FRAMING_REG 0; RegWrite BIT_FRAMING_REG 0; Clock 5].


(** The calls of [anticoll] on [uid_state 0x08]. *)
Definition uid_trace : list event :=
  [RegWrite BIT_FRAMING_REG 0x00;
   RegWrite COMMAND_REG IDLE; RegWrite COM_IRQ_REG 0x7F;
   RegRead FIFO_LEVEL_REG 0; RegWrite FIFO_LEVEL_REG 0x80;
   RegWrite FIFO_DATA_REG ANTICOLL_1; RegWrite FIFO_DATA_REG 0x20;
   RegWrite COMMAND_REG TRANSCEIVE;
   RegRead BIT_FRAMING_REG 0; RegWrite BIT_FRAMING_REG 0x80;
   Clock 0; Clock 0.01; RegRead COM_IRQ_REG 0x30;
   RegRead BIT_FRAMING_REG 0; RegWrite BIT_FRAMING_REG 0; Clock 0.02;
   RegRead ERROR_REG 0; RegRead FIFO_LEVEL_REG 5; RegRead CONTROL_REG 0;
   RegRead FIFO_DATA_REG 0x12; RegRead FIFO_DATA_REG 0x34;
   RegRead FIFO_DATA_REG 0x56; RegRead FIFO_DATA_REG 0x78;
   RegRead FIFO_DATA_REG 0x08].

(** A card stays in the field for two iterations: REQUEST_A and the
    anticollision are answered twice. *)
Definition card_stays_state : state :=
  session (script [(COM_IRQ_REG, [0x30; 0x30; 0x30; 0x30]);
                   (FIFO_LEVEL_REG, [0; 2; 0; 5; 0; 2; 0; 5]);
                   (FIFO_DATA_REG, [0x04; 0x00; 0x12; 0x34; 0x56; 0x78; 0x08;
                                    0x04; 0x00; 0x12; 0x34; 0x56; 0x78; 0x08])])
          [0; 0.01; 0.02; 0.2; 0.21; 0.22; 0.4; 0.41; 0.42; 0.6; 0.61; 0.62]%Q
          true.

(** * Properties *)

Lemma status_eqb_eq a b : StatusCodes.eqb a b = true <-> a = b.
Proof. destruct a, b; cbv; split; congruence. Qed.

(** ** Register addressing *)

(** The address bytes of [_write_register] and [_read_register] decode to
    a write, respectively a read, of the register they were built from. *)
Lemma address_byte reg :
  valid_reg reg ->
  let a := Z.land (Z.shiftl reg 1) 0x7E in
  Z.testbit a 7 = false /\ Z.land (Z.shiftr a 1) 0x3F = reg /\
  Z.testbit (Z.lor a 0x80) 7 = true /\
  Z.land (Z.shiftr (Z.lor a 0x80) 1) 0x3F = reg.
Proof.
  unfold valid_reg. intros H.
  rewrite <- (Z2Nat.id reg) by lia.
  assert (Hn : (Z.to_nat reg < 64)%nat) by lia.
  revert Hn. generalize (Z.to_nat reg) as n. intros n Hn.
  do 64 (destruct n as [|n]; [vm_compute; auto|]).
  lia.
Qed.

Lemma _write_register_eq reg value s :
  valid_reg reg ->
  _write_register reg value s = Ret tt (set_log s (log s ++ [RegWrite reg value])).
Proof.
  intros H. destruct (address_byte reg H) as (Hw & Hr & _).
  unfold _write_register, bind, xfer2, ret. cbv zeta.
  rewrite Hw, Hr. reflexivity.
Qed.

Lemma _read_register_eq reg s :
  valid_reg reg ->
  _read_register reg s =
  Ret (hd 0 (chip s reg))
      (set_log (set_chip s (upd (chip s) reg (tl (chip s reg))))
               (log s ++ [RegRead reg (hd 0 (chip s reg))])).
Proof.
  intros H. destruct (address_byte reg H) as (_ & _ & Hw & Hr).
  unfold _read_register, bind, xfer2, ret. cbv zeta.
  rewrite Hw, Hr. reflexivity.
Qed.

(** ** Traces *)

Lemma reads_app reg a b : reads reg (a ++ b) = reads reg a ++ reads reg b.
Proof. apply flat_map_app. Qed.

Lemma writes_app reg a b : writes reg (a ++ b) = writes reg a ++ writes reg b.
Proof. apply flat_map_app. Qed.

Lemma clocks_app a b : clocks (a ++ b) = clocks a ++ clocks b.
Proof. apply flat_map_app. Qed.

Lemma reads_map_Read reg r l :
  reads reg (map (RegRead r) l) = if r =? reg then l else [].
Proof.
  induction l as [|v l IH]; simpl.
  - destruct (r =? reg); reflexivity.
  - fold (reads reg (map (RegRead r) l)). rewrite IH.
    destruct (r =? reg); reflexivity.
Qed.

Lemma reads_map_Write reg r l : reads reg (map (RegWrite r) l) = [].
Proof. induction l; simpl; auto. Qed.

Lemma clocks_map_Read r l : clocks (map (RegRead r) l) = [].
Proof. induction l; simpl; auto. Qed.

Lemma clocks_map_Write r l : clocks (map (RegWrite r) l) = [].
Proof. induction l; simpl; auto. Qed.

(** ** Inversion of returning runs *)

Lemma bind_inv {A B} (c : M A) (k : A -> M B) s b s' :
  bind c k s = Ret b s' ->
  exists a s1, c s = Ret a s1 /\ k a s1 = Ret b s'.
Proof.
  unfold bind. destruct (c s) as [a s1| |]; try discriminate. eauto.
Qed.

Lemma ret_inv {A} (a b : A) s s' : ret a s = Ret b s' -> b = a /\ s' = s.
Proof. unfold ret. intros H. inversion H. auto. Qed.

Lemma write_inv reg value s u s' :
  valid_reg reg ->
  _write_register reg value s = Ret u s' ->
  log s' = log s ++ [RegWrite reg value] /\ clock s' = clock s.
Proof.
  intros V H. rewrite _write_register_eq in H by exact V.
  inversion H. auto.
Qed.

Lemma read_inv reg s v s' :
  valid_reg reg ->
  _read_register reg s = Ret v s' ->
  log s' = log s ++ [RegRead reg v] /\ clock s' = clock s /\
  v = hd 0 (chip s reg).
Proof.
  intros V H. rewrite _read_register_eq in H by exact V.
  inversion H. auto.
Qed.

Lemma time_inv s t s' :
  time s = Ret t s' ->
  log s' = log s ++ [Clock t] /\ clock s = t :: clock s'.
Proof.
  unfold time. destruct (clock s) as [|t0 ts] eqn:E; try discriminate.
  intros H. inversion H. subst. auto.
Qed.

Lemma set_bit_mask_inv reg mask s u s' :
  valid_reg reg ->
  _set_bit_mask reg mask s = Ret u s' ->
  exists current,
    log s' = log s ++ [RegRead reg current; RegWrite reg (Z.lor current mask)] /\
    clock s' = clock s.
Proof.
  intros V H. unfold _set_bit_mask in H.
  apply bind_inv in H as (current & s1 & H1 & H2).
  apply read_inv in H1 as (L1 & C1 & _); [|exact V].
  apply write_inv in H2 as (L2 & C2); [|exact V].
  exists current. rewrite L2, L1, C2, C1, <- app_assoc. auto.
Qed.

Lemma clear_bit_mask_inv reg mask s u s' :
  valid_reg reg ->
  _clear_bit_mask reg mask s = Ret u s' ->
  exists current,
    log s' = log s ++ [RegRead reg current;
                       RegWrite reg (Z.land current (Z.lnot mask))] /\
    clock s' = clock s.
Proof.
  intros V H. unfold _clear_bit_mask in H.
  apply bind_inv in H as (current & s1 & H1 & H2).
  apply read_inv in H1 as (L1 & C1 & _); [|exact V].
  apply write_inv in H2 as (L2 & C2); [|exact V].
  exists current. rewrite L2, L1, C2, C1, <- app_assoc. auto.
Qed.

Create HintDb regs.

#[local] Hint Unfold valid_reg COMMAND_REG COM_IRQ_REG ERROR_REG FIFO_DATA_REG
  FIFO_LEVEL_REG CONTROL_REG BIT_FRAMING_REG TX_CONTROL_REG : regs.

Ltac reg_ok := autounfold with regs; lia.

Lemma write_fifo_inv send_data : forall s u s',
  write_fifo send_data s = Ret u s' ->
  log s' = log s ++ map (RegWrite FIFO_DATA_REG) send_data /\ clock s' = clock s.
Proof.
  induction send_data as [|byte rest IH]; simpl; intros s u s' H.
  - apply ret_inv in H as (_ & ->). rewrite app_nil_r. auto.
  - apply bind_inv in H as (? & s1 & H1 & H2).
    apply write_inv in H1 as (L1 & C1); [|reg_ok].
    apply IH in H2 as (L2 & C2).
    rewrite L2, L1, C2, C1, <- app_assoc. auto.
Qed.

Lemma read_fifo_inv count : forall back_data s data s',
  read_fifo count back_data s = Ret data s' ->
  exists got,
    data = back_data ++ got /\ length got = count /\
    log s' = log s ++ map (RegRead FIFO_DATA_REG) got /\ clock s' = clock s.
Proof.
  induction count as [|count IH]; simpl; intros back_data s data s' H.
  - apply ret_inv in H as (-> & ->). exists []. rewrite !app_nil_r. auto.
  - apply bind_inv in H as (v & s1 & H1 & H2).
    apply read_inv in H1 as (L1 & C1 & _); [|reg_ok].
    apply IH in H2 as (got & -> & Hlen & L2 & C2).
    exists (v :: got). simpl.
    rewrite <- app_assoc, L2, L1, C2, C1, <- app_assoc, Hlen. auto.
Qed.

Lemma poll_inv start_time timeout fuel : forall n s n' s',
  poll fuel start_time timeout n s = Ret n' s' ->
  exists tr, log s' = log s ++ tr /\ poll_trace start_time timeout n tr n'.
Proof.
  induction fuel as [|fuel IH]; simpl; intros n s n' s' H; [discriminate|].
  apply bind_inv in H as (now & s1 & H1 & H2).
  apply time_inv in H1 as (L1 & _).
  destruct (Qltb (now - start_time)%Q timeout) eqn:E.
  - apply bind_inv in H2 as (v & s2 & H2 & H3).
    apply read_inv in H2 as (L2 & _ & _); [|reg_ok].
    destruct (truthy (Z.land v wait_irq)) eqn:W.
    + apply ret_inv in H3 as (-> & ->).
      exists [Clock now; RegRead COM_IRQ_REG v]. split.
      * rewrite L2, L1, <- app_assoc. reflexivity.
      * now apply poll_done.
    + apply IH in H3 as (tr & L3 & P).
      exists (Clock now :: RegRead COM_IRQ_REG v :: tr). split.
      * rewrite L3, L2, L1, <- !app_assoc. reflexivity.
      * now apply poll_again.
  - apply ret_inv in H2 as (-> & ->).
    exists [Clock now]. split; [exact L1 | now apply poll_deadline].
Qed.

(** ** The shape of a returning transceive run *)

Lemma returns_inv {A} (c : M A) s a tr :
  returns c s a tr -> exists s', c s = Ret a s' /\ log s' = log s ++ tr.
Proof.
  unfold returns. destruct (c s) as [a' s'| |]; try contradiction.
  intros (-> & L). eauto.
Qed.

(** The calls of a returning run have the shape [comm_trace]. *)
Lemma communicate_run command send_data timeout s r s' :
  _communicate_with_card command send_data timeout s = Ret r s' ->
  exists tr, log s' = log s ++ tr /\ comm_trace command send_data timeout tr r.
Proof.
  intros H. unfold _communicate_with_card in H.
  apply bind_inv in H as (? & s1 & H1 & H).
  apply write_inv in H1 as (L1 & _); [|reg_ok].
  apply bind_inv in H as (? & s2 & H2 & H).
  apply write_inv in H2 as (L2 & _); [|reg_ok].
  apply bind_inv in H as (? & s3 & H3 & H).
  apply set_bit_mask_inv in H3 as (fl0 & L3 & _); [|reg_ok].
  apply bind_inv in H as (? & s4 & H4 & H).
  apply write_fifo_inv in H4 as (L4 & _).
  apply bind_inv in H as (? & s5 & H5 & H).
  apply write_inv in H5 as (L5 & _); [|reg_ok].
  apply bind_inv in H as (? & s6 & H6 & H).
  assert (exists bf0,
    log s6 = log s5 ++
      (if command =? TRANSCEIVE
       then [RegRead BIT_FRAMING_REG bf0; RegWrite BIT_FRAMING_REG (Z.lor bf0 0x80)]
       else [])) as (bf0 & L6).
  { destruct (command =? TRANSCEIVE).
    - apply set_bit_mask_inv in H6 as (bf0 & L6 & _); [|reg_ok]. eauto.
    - apply ret_inv in H6 as (_ & ->). exists 0. now rewrite app_nil_r. }
  apply bind_inv in H as (start_time & s7 & H7 & H).
  apply time_inv in H7 as (L7 & _).
  apply bind_inv in H as (n & s8 & H8 & H).
  unfold poll_loop in H8. apply poll_inv in H8 as (polled & L8 & P).
  apply bind_inv in H as (? & s9 & H9 & H).
  apply clear_bit_mask_inv in H9 as (bf1 & L9 & _); [|reg_ok].
  apply bind_inv in H as (now & s10 & H10 & H).
  apply time_inv in H10 as (L10 & _).
  assert (exists tail,
    log s' = log s10 ++ tail /\
    ending command n (Qgeb (now - start_time)%Q timeout) tail r) as (tail & L11 & E).
  { destruct (Qgeb (now - start_time)%Q timeout) eqn:Late.
    - apply ret_inv in H as (-> & ->). exists [].
      rewrite app_nil_r. split; [reflexivity | now constructor].
    - apply bind_inv in H as (err & s11 & H11 & H).
      apply read_inv in H11 as (L11 & _ & _); [|reg_ok].
      destruct (truthy (Z.land err 0x1B)) eqn:Err.
      + apply ret_inv in H as (-> & ->). exists [RegRead ERROR_REG err].
        split; [exact L11 | now constructor].
      + apply bind_inv in H as (v & s12 & H12 & H).
        destruct n as [v'|]; [|discriminate].
        apply ret_inv in H12 as (-> & ->).
        destruct (command =? TRANSCEIVE) eqn:Cmd.
        * apply bind_inv in H as (fifo_size & s13 & H13 & H).
          apply read_inv in H13 as (L13 & _ & _); [|reg_ok].
          apply bind_inv in H as (control & s14 & H14 & H).
          apply read_inv in H14 as (L14 & _ & _); [|reg_ok].
          apply bind_inv in H as (back_data & s15 & H15 & H).
          apply read_fifo_inv in H15 as (got & -> & Hlen & L15 & _).
          apply ret_inv in H as (-> & ->). simpl app.
          exists (RegRead ERROR_REG err :: RegRead FIFO_LEVEL_REG fifo_size ::
                  RegRead CONTROL_REG control :: map (RegRead FIFO_DATA_REG) got).
          split.
          -- rewrite L15, L14, L13, L11, <- !app_assoc. reflexivity.
          -- now apply end_drain.
        * apply ret_inv in H as (-> & ->). exists [RegRead ERROR_REG err].
          split; [exact L11 | now apply end_plain]. }
  exists (prologue command send_data fl0 bf0
       ++ Clock start_time :: polled
       ++ RegRead BIT_FRAMING_REG bf1
          :: RegWrite BIT_FRAMING_REG (Z.land bf1 (Z.lnot 0x80))
          :: Clock now :: tail).
  split; [|econstructor; eassumption].
  rewrite L11, L10, L9, L8, L7, L6, L5, L4, L3, L2, L1.
  unfold prologue. rewrite <- !app_assoc. reflexivity.
Qed.

Lemma communicate_inv command send_data timeout s r tr :
  returns (_communicate_with_card command send_data timeout) s r tr ->
  comm_trace command send_data timeout tr r.
Proof.
  intros R. apply returns_inv in R as (s' & H & L).
  apply communicate_run in H as (tr' & L' & T).
  rewrite L' in L. apply app_inv_head in L. now subst.
Qed.

(** ** Reading the trace of a transceive run *)

Lemma reads_cons reg e tr :
  reads reg (e :: tr) =
  match e with
  | RegRead r v => if r =? reg then [v] else []
  | _ => []
  end ++ reads reg tr.
Proof. reflexivity. Qed.

Lemma clocks_cons e tr :
  clocks (e :: tr) = match e with Clock t => [t] | _ => [] end ++ clocks tr.
Proof. reflexivity. Qed.

Lemma reads_prologue reg command send_data fl0 bf0 :
  reg <> BIT_FRAMING_REG ->
  reads reg (prologue command send_data fl0 bf0) =
  if FIFO_LEVEL_REG =? reg then [fl0] else [].
Proof.
  intros N. unfold prologue.
  assert ((BIT_FRAMING_REG =? reg) = false) as B by (apply Z.eqb_neq; congruence).
  rewrite !reads_app, reads_map_Write.
  destruct (command =? TRANSCEIVE); rewrite ?reads_cons, ?B;
    cbn [reads flat_map app]; rewrite ?app_nil_r; reflexivity.
Qed.

Lemma clocks_prologue command send_data fl0 bf0 :
  clocks (prologue command send_data fl0 bf0) = [].
Proof.
  unfold prologue. rewrite !clocks_app, clocks_map_Write.
  destruct (command =? TRANSCEIVE); reflexivity.
Qed.

Lemma poll_trace_reads start_time timeout reg n tr n' :
  poll_trace start_time timeout n tr n' ->
  reg <> COM_IRQ_REG ->
  reads reg tr = [].
Proof.
  intros P N.
  assert ((COM_IRQ_REG =? reg) = false) as B by (apply Z.eqb_neq; congruence).
  induction P; rewrite ?reads_cons, ?B; cbn [reads flat_map app]; auto.
Qed.

(** The flags polling read: all but the last lack the done bits, and [n]
    is left holding the last one. *)
Lemma poll_trace_flags start_time timeout n tr n' :
  poll_trace start_time timeout n tr n' ->
  (reads COM_IRQ_REG tr = [] /\ n' = n) \/
  (exists earlier v, reads COM_IRQ_REG tr = earlier ++ [v] /\ n' = Some v /\
     Forall (fun f => Z.land f wait_irq = 0) earlier).
Proof.
  induction 1 as [n now L | n now v L W | n now v tr n' L W P IH].
  - left. auto.
  - right. exists [], v. rewrite !reads_cons, Z.eqb_refl. auto.
  - right. unfold truthy in W. apply negb_false_iff, Z.eqb_eq in W.
    rewrite !reads_cons, Z.eqb_refl. cbn [app].
    destruct IH as [(R & E) | (earlier & v' & R & E & F)]; rewrite R.
    + exists [], v. auto.
    + exists (v :: earlier), v'. auto.
Qed.

Lemma reads_nil reg : reads reg [] = [].
Proof. reflexivity. Qed.

Lemma reads_comm reg command send_data fl0 bf0 start_time timeout polled n0 n
      bf1 w now tail :
  poll_trace start_time timeout n0 polled n ->
  reg <> BIT_FRAMING_REG -> reg <> COM_IRQ_REG ->
  reads reg (prologue command send_data fl0 bf0
             ++ Clock start_time :: polled
             ++ RegRead BIT_FRAMING_REG bf1 :: RegWrite BIT_FRAMING_REG w
                :: Clock now :: tail) =
  (if FIFO_LEVEL_REG =? reg then [fl0] else []) ++ reads reg tail.
Proof.
  intros P NB NI.
  assert ((BIT_FRAMING_REG =? reg) = false) as B by (apply Z.eqb_neq; congruence).
  rewrite reads_app, reads_prologue, reads_cons, reads_app by exact NB.
  rewrite (poll_trace_reads _ _ _ _ _ _ P NI), !reads_cons, B.
  reflexivity.
Qed.

Lemma ending_reads_irq command n late tail r :
  ending command n late tail r -> reads COM_IRQ_REG tail = [].
Proof.
  destruct 1; rewrite ?reads_cons, ?reads_map_Read; reflexivity.
Qed.

Lemma reads_comm_irq command send_data fl0 bf0 start_time timeout polled n0 n
      bf1 w now late tail r :
  poll_trace start_time timeout n0 polled n ->
  ending command n late tail r ->
  reads COM_IRQ_REG (prologue command send_data fl0 bf0
             ++ Clock start_time :: polled
             ++ RegRead BIT_FRAMING_REG bf1 :: RegWrite BIT_FRAMING_REG w
                :: Clock now :: tail) =
  reads COM_IRQ_REG polled.
Proof.
  intros P E.
  rewrite reads_app, reads_prologue, reads_cons, reads_app, !reads_cons
    by discriminate.
  rewrite (ending_reads_irq _ _ _ _ _ E). cbn [app].
  change (BIT_FRAMING_REG =? COM_IRQ_REG) with false.
  change (FIFO_LEVEL_REG =? COM_IRQ_REG) with false.
  cbn [app]. now rewrite app_nil_r.
Qed.

(** Registers a run reads after the deadline check, by ending. *)
Ltac read_tail :=
  rewrite ?reads_cons, ?reads_map_Read, ?reads_nil in *;
  repeat match goal with
         | |- context [?a =? ?b] =>
             is_const a; is_const b;
             let v := eval vm_compute in (a =? b) in
             change (a =? b) with v
         | H : context [?a =? ?b] |- _ =>
             is_const a; is_const b;
             let v := eval vm_compute in (a =? b) in
             change (a =? b) with v in H
         end;
  cbn [app] in *.

Lemma truthy_false z : truthy z = false <-> z = 0.
Proof. unfold truthy. rewrite negb_false_iff. apply Z.eqb_eq. Qed.

Lemma truthy_true z : truthy z = true <-> z <> 0.
Proof. unfold truthy. rewrite negb_true_iff. apply Z.eqb_neq. Qed.

Lemma low_bits_range c : 0 <= Z.land c 0x07 <= 7.
Proof.
  change (Z.land c 0x07) with (Z.land c (Z.ones 3)). rewrite Z.land_ones by lia.
  change (2 ^ 3) with 8. pose proof (Z.mod_pos_bound c 8 eq_refl). lia.
Qed.

(** ** Transceive engine: bit length and drain *)

(** C4: a transceive call that read the error register and found none of
    the bits 0x1B set (so it ended neither in TIMEOUT nor in the
    error-register ERROR) went on to read the FIFO level and the control
    register once each.  With [last_bits] the low three bits of the control
    register, which always lie in [0,7], and a FIFO level in [0,16], the
    returned bit length is [(fifo_level - 1) * 8 + last_bits] when
    [last_bits <> 0] and [fifo_level * 8] when [last_bits = 0]. *)
Theorem bit_length_formula send_data timeout s status back_data back_len tr err :
  returns (_communicate_with_card TRANSCEIVE send_data timeout) s
          (status, back_data, back_len) tr ->
  reads ERROR_REG tr = [err] ->
  Z.land err 0x1B = 0 ->
  exists flushed fifo_level control,
    reads FIFO_LEVEL_REG tr = [flushed; fifo_level] /\
    reads CONTROL_REG tr = [control] /\
    let last_bits := Z.land control 0x07 in
    0 <= last_bits <= 7 /\
    (0 <= fifo_level <= 16 ->
     (last_bits <> 0 -> back_len = (fifo_level - 1) * 8 + last_bits) /\
     (last_bits = 0 -> back_len = fifo_level * 8)).
Proof.
  intros R He Hz. apply communicate_inv in R.
  inversion R as [fl0 bf0 t0 polled n bf1 now tail r P E Htr Hr]; subst; clear R.
  rewrite (reads_comm _ _ _ _ _ _ _ _ _ _ _ _ _ _ P) in He by discriminate.
  rewrite !(reads_comm _ _ _ _ _ _ _ _ _ _ _ _ _ _ P) by discriminate.
  inversion E as [L | e L Er | e v L Er Hn C | e v fl c data L Er Hn C Hlen];
    subst; read_tail; try discriminate.
  - inversion He; subst e. apply truthy_true in Er. contradiction.
  - exists fl0, fl, c. repeat split; try reflexivity.
    + apply low_bits_range.
    + apply low_bits_range.
    + intros Hne. apply Z.eqb_neq in Hne. now rewrite Hne.
    + intros Heq. now rewrite Heq.
Qed.

Lemma bit_length_formula_witness :
  returns (_communicate_with_card TRANSCEIVE [REQUEST_A] default_timeout)
          atqa_state (OK, [0x04; 0x00], 16) atqa_trace /\
  reads ERROR_REG atqa_trace = [0] /\
  Z.land 0 0x1B = 0 /\
  exists flushed fifo_level control,
    reads FIFO_LEVEL_REG atqa_trace = [flushed; fifo_level] /\
    reads CONTROL_REG atqa_trace = [control] /\
    let last_bits := Z.land control 0x07 in
    0 <= last_bits <= 7 /\
    (0 <= fifo_level <= 16 ->
     (last_bits <> 0 -> 16 = (fifo_level - 1) * 8 + last_bits) /\
     (last_bits = 0 -> 16 = fifo_level * 8)).
Proof.
  split; [vm_compute; split; reflexivity|].
  split; [reflexivity|]. split; [reflexivity|].
  apply (bit_length_formula [REQUEST_A] default_timeout atqa_state OK
           [0x04; 0x00] 16 atqa_trace 0).
  - vm_compute. split; reflexivity.
  - reflexivity.
  - reflexivity.
Defined.

(** C5: a transceive call reaches the drain step exactly when it reads the
    FIFO level a second time (the first read belongs to the flush of step
    1).  For every level byte in [0,255] read there, the bytes returned are
    the bytes read from the FIFO data register, and there are
    [max 1 (min 16 fifo_level)] of them. *)
Theorem drained_bytes send_data timeout s status back_data back_len tr
        flushed fifo_level :
  returns (_communicate_with_card TRANSCEIVE send_data timeout) s
          (status, back_data, back_len) tr ->
  reads FIFO_LEVEL_REG tr = [flushed; fifo_level] ->
  0 <= fifo_level <= 255 ->
  reads FIFO_DATA_REG tr = back_data /\
  Z.of_nat (length back_data) = Z.max 1 (Z.min 16 fifo_level).
Proof.
  intros R Hl Hb. apply communicate_inv in R.
  inversion R as [fl0 bf0 t0 polled n bf1 now tail r P E Htr Hr]; subst; clear R.
  rewrite (reads_comm _ _ _ _ _ _ _ _ _ _ _ _ _ _ P) in Hl by discriminate.
  rewrite !(reads_comm _ _ _ _ _ _ _ _ _ _ _ _ _ _ P) by discriminate.
  inversion E as [L | e L Er | e v L Er Hn C | e v fl c data L Er Hn C Hlen];
    subst; read_tail; try discriminate.
  inversion Hl; subst. split; [reflexivity|].
  rewrite Hlen.
  destruct (Z.eqb_spec fifo_level 0) as [->|N]; [reflexivity|].
  destruct (Z.gtb_spec fifo_level 16); lia.
Qed.

Lemma drained_bytes_witness :
  returns (_communicate_with_card TRANSCEIVE [REQUEST_A] default_timeout)
          atqa_state (OK, [0x04; 0x00], 16) atqa_trace /\
  reads FIFO_LEVEL_REG atqa_trace = [0; 2] /\
  0 <= 2 <= 255 /\
  reads FIFO_DATA_REG atqa_trace = [0x04; 0x00] /\
  Z.of_nat (length [0x04; 0x00]) = Z.max 1 (Z.min 16 2).
Proof.
  split; [vm_compute; auto|]. split; [reflexivity|]. split; [lia|].
  apply (drained_bytes [REQUEST_A] default_timeout atqa_state OK
           [0x04; 0x00] 16 atqa_trace 0 2).
  - vm_compute. auto.
  - reflexivity.
  - lia.
Defined.

(** C9: the bit length is computed from the FIFO level as read, before the
    drain count is clamped.  For a level above 16 exactly 16 bytes are
    returned and the bit length exceeds 8 times that; for a level of 0 with
    [last_bits <> 0] one byte is returned and the bit length is
    [last_bits - 8], a negative number. *)
Theorem bit_length_ignores_clamp send_data timeout s status back_data back_len
        tr flushed fifo_level control :
  returns (_communicate_with_card TRANSCEIVE send_data timeout) s
          (status, back_data, back_len) tr ->
  reads FIFO_LEVEL_REG tr = [flushed; fifo_level] ->
  reads CONTROL_REG tr = [control] ->
  (16 < fifo_level ->
   length back_data = 16%nat /\ 8 * Z.of_nat (length back_data) < back_len) /\
  (fifo_level = 0 -> Z.land control 0x07 <> 0 ->
   length back_data = 1%nat /\ back_len = Z.land control 0x07 - 8 /\
   back_len < 0).
Proof.
  intros R Hl Hc. apply communicate_inv in R.
  inversion R as [fl0 bf0 t0 polled n bf1 now tail r P E Htr Hr]; subst; clear R.
  rewrite (reads_comm _ _ _ _ _ _ _ _ _ _ _ _ _ _ P) in Hl by discriminate.
  rewrite (reads_comm _ _ _ _ _ _ _ _ _ _ _ _ _ _ P) in Hc by discriminate.
  inversion E as [L | e L Er | e v L Er Hn C | e v fl c data L Er Hn C Hlen];
    subst; read_tail; try discriminate.
  inversion Hl; subst. inversion Hc; subst. clear Hl Hc.
  pose proof (low_bits_range control) as B.
  split.
  - intros Hbig. rewrite Hlen.
    destruct (Z.eqb_spec fifo_level 0); [lia|].
    destruct (Z.gtb_spec fifo_level 16); [|lia].
    split; [reflexivity|].
    destruct (Z.eqb_spec (Z.land control 7) 0); simpl negb; cbv iota; lia.
  - intros -> Hlb. rewrite Hlen. split; [reflexivity|].
    apply Z.eqb_neq in Hlb. rewrite Hlb. simpl negb. cbv iota. lia.
Qed.

Lemma bit_length_ignores_clamp_witness :
  returns (_communicate_with_card TRANSCEIVE [REQUEST_A] default_timeout)
          overflow_state (OK, repeat 0 16, 155) overflow_trace /\
  reads FIFO_LEVEL_REG overflow_trace = [0; 20] /\
  reads CONTROL_REG overflow_trace = [0x03] /\
  (16 < 20 ->
   length (repeat 0 16) = 16%nat /\
   8 * Z.of_nat (length (repeat 0 16)) < 155) /\
  (20 = 0 -> Z.land 0x03 0x07 <> 0 ->
   length (repeat 0 16) = 1%nat /\ 155 = Z.land 0x03 0x07 - 8 /\ 155 < 0).
Proof.
  split; [vm_compute; auto|]. split; [reflexivity|]. split; [reflexivity|].
  apply (bit_length_ignores_clamp [REQUEST_A] default_timeout overflow_state
           OK (repeat 0 16) 155 overflow_trace 0 20 0x03).
  - vm_compute. auto.
  - reflexivity.
  - reflexivity.
Defined.



(** ** Transceive engine: the two timeouts *)


Lemma clocks_nil : clocks [] = [].
Proof. reflexivity. Qed.

Lemma ending_clocks command n late tail r :
  ending command n late tail r -> clocks tail = [].
Proof.
  destruct 1; rewrite ?clocks_cons, ?clocks_map_Read; reflexivity.
Qed.

Lemma clocks_comm command send_data fl0 bf0 start_time polled bf1 w now n late
      tail r :
  ending command n late tail r ->
  clocks (prologue command send_data fl0 bf0
          ++ Clock start_time :: polled
          ++ RegRead BIT_FRAMING_REG bf1 :: RegWrite BIT_FRAMING_REG w
             :: Clock now :: tail) =
  start_time :: clocks polled ++ [now].
Proof.
  intros E.
  rewrite clocks_app, clocks_prologue, clocks_cons, clocks_app, !clocks_cons.
  now rewrite (ending_clocks _ _ _ _ _ E).
Qed.






(** ** Commands other than transceive *)

(** C10 (amended): a call with a command other than transceive that read
    the error register and found none of the bits 0x1B set returns no data
    and bit length 0.  It never reads the control register or the FIFO data
    register, and it reads the FIFO level register exactly once: in the
    read-modify-write that flushes the FIFO at step 1. *)
Theorem plain_command_no_data command send_data timeout s status back_data
        back_len tr err :
  command <> TRANSCEIVE ->
  returns (_communicate_with_card command send_data timeout) s
          (status, back_data, back_len) tr ->
  reads ERROR_REG tr = [err] ->
  Z.land err 0x1B = 0 ->
  back_data = [] /\ back_len = 0 /\
  reads CONTROL_REG tr = [] /\
  reads FIFO_DATA_REG tr = [] /\
  exists flushed rest,
    tr = [RegWrite COMMAND_REG IDLE; RegWrite COM_IRQ_REG 0x7F;
          RegRead FIFO_LEVEL_REG flushed;
          RegWrite FIFO_LEVEL_REG (Z.lor flushed 0x80)] ++ rest /\
    reads FIFO_LEVEL_REG rest = [].
Proof.
  intros Hc R He Hz. apply communicate_inv in R.
  apply Z.eqb_neq in Hc.
  inversion R as [fl0 bf0 t0 polled n bf1 now tail r P E Htr Hr]; subst; clear R.
  rewrite (reads_comm _ _ _ _ _ _ _ _ _ _ _ _ _ _ P) in He by discriminate.
  rewrite !(reads_comm _ _ _ _ _ _ _ _ _ _ _ _ _ _ P) by discriminate.
  inversion E as [L | e L Er | e v L Er Hn C | e v fl c data L Er Hn C Hlen];
    subst; read_tail; try discriminate; try congruence.
  - inversion He; subst e. apply truthy_true in Er. contradiction.
  - repeat split; try reflexivity.
    exists fl0. eexists. split.
    + unfold prologue. rewrite <- !app_assoc. cbn [app]. reflexivity.
    + rewrite Hc. cbn [app].
      rewrite reads_app, reads_map_Write, !reads_cons, reads_app.
      rewrite (poll_trace_reads _ _ FIFO_LEVEL_REG _ _ _ P) by discriminate.
      read_tail. reflexivity.
Qed.

(** C10, as stated, fails on this run: a CALC_CRC call that returns OK has
    read the FIFO level register, in the flush of step 1. *)
Lemma plain_command_reads_fifo_level :
  returns (_communicate_with_card CALC_CRC [0x93; 0x20] default_timeout)
          crc_state (OK, [], 0) crc_trace /\
  reads FIFO_LEVEL_REG crc_trace = [0].
Proof. vm_compute. auto. Qed.

Lemma plain_command_no_data_witness :
  CALC_CRC <> TRANSCEIVE /\
  returns (_communicate_with_card CALC_CRC [0x93; 0x20] default_timeout)
          crc_state (OK, [], 0) crc_trace /\
  reads ERROR_REG crc_trace = [0] /\
  Z.land 0 0x1B = 0 /\
  @nil Z = [] /\ 0 = 0 /\
  reads CONTROL_REG crc_trace = [] /\
  reads FIFO_DATA_REG crc_trace = [] /\
  exists flushed rest,
    crc_trace = [RegWrite COMMAND_REG IDLE; RegWrite COM_IRQ_REG 0x7F;
          RegRead FIFO_LEVEL_REG flushed;
          RegWrite FIFO_LEVEL_REG (Z.lor flushed 0x80)] ++ rest /\
    reads FIFO_LEVEL_REG rest = [].
Proof.
  split; [discriminate|].
  split; [vm_compute; auto|].
  split; [reflexivity|]. split; [reflexivity|].
  apply (plain_command_no_data CALC_CRC [0x93; 0x20] default_timeout crc_state
           OK [] 0 crc_trace 0).
  - discriminate.
  - vm_compute. auto.
  - reflexivity.
  - reflexivity.
Defined.

(** ** Card discovery *)

(** C6: with the transceive call under [request] returning [status] and
    [back_data], [request] returns (OK, back_data) when the status is OK
    and exactly 2 bytes came back, and (ERROR, None) for any other status
    or byte count; an OK result of [request] only ever arises that way. *)
Theorem request_result s s1 status back_data back_len s2 :
  _write_register BIT_FRAMING_REG 0x07 s = Ret tt s1 ->
  _communicate_with_card TRANSCEIVE [REQUEST_A] default_timeout s1 =
    Ret (status, back_data, back_len) s2 ->
  (status = OK /\ length back_data = 2%nat ->
   request s = Ret (OK, Some back_data) s2) /\
  (status <> OK \/ length back_data <> 2%nat ->
   request s = Ret (ERROR, None) s2) /\
  (forall payload s', request s = Ret (OK, payload) s' ->
   status = OK /\ length back_data = 2%nat /\ payload = Some back_data).
Proof.
  intros W C. unfold request, bind. rewrite W, C.
  destruct (StatusCodes.eqb status OK) eqn:Es;
    destruct (Nat.eqb_spec (length back_data) 2) as [El|El];
    cbn [negb orb]; unfold ret.
  - apply status_eqb_eq in Es. subst. split; [|split].
    + reflexivity.
    + intros [N|N]; contradiction.
    + intros payload s' H. inversion H. auto.
  - split; [|split].
    + intros [_ N]. contradiction.
    + reflexivity.
    + discriminate.
  - split; [|split].
    + intros [-> _]. discriminate.
    + reflexivity.
    + discriminate.
  - split; [|split].
    + intros [-> _]. discriminate.
    + reflexivity.
    + discriminate.
Qed.

Lemma request_result_witness :
  let s := atqa_state in
  let s1 := state_after (_write_register BIT_FRAMING_REG 0x07 s) in
  let s2 := state_after (_communicate_with_card TRANSCEIVE [REQUEST_A]
                           default_timeout s1) in
  _write_register BIT_FRAMING_REG 0x07 s = Ret tt s1 /\
  _communicate_with_card TRANSCEIVE [REQUEST_A] default_timeout s1 =
    Ret (OK, [0x04; 0x00], 16) s2 /\
  (OK = OK /\ length [0x04; 0x00] = 2%nat ->
   request s = Ret (OK, Some [0x04; 0x00]) s2) /\
  (OK <> OK \/ length [0x04; 0x00] <> 2%nat ->
   request s = Ret (ERROR, None) s2) /\
  (forall payload s', request s = Ret (OK, payload) s' ->
   OK = OK /\ length [0x04; 0x00] = 2%nat /\ payload = Some [0x04; 0x00]).
Proof.
  intros s s1 s2.
  split; [vm_compute; reflexivity|]. split; [vm_compute; reflexivity|].
  apply (request_result s s1 OK [0x04; 0x00] 16 s2);
    vm_compute; reflexivity.
Defined.

(** C1: with the transceive call under [anticoll] returning OK and exactly
    five bytes b0..b4, [anticoll] returns (OK, [b0; b1; b2; b3]) if and
    only if b4 is the XOR of b0..b3, and (ERROR, None) when it is not; with
    any other status or byte count it returns (ERROR, None).  No UID bytes
    are returned without a matching checksum. *)
Theorem anticoll_result s s1 status back_data back_len s2 :
  _write_register BIT_FRAMING_REG 0x00 s = Ret tt s1 ->
  _communicate_with_card TRANSCEIVE [ANTICOLL_1; 0x20] default_timeout s1 =
    Ret (status, back_data, back_len) s2 ->
  (forall b0 b1 b2 b3 b4,
     status = OK -> back_data = [b0; b1; b2; b3; b4] ->
     (anticoll s = Ret (OK, Some [b0; b1; b2; b3]) s2 <->
      b4 = Z.lxor (Z.lxor (Z.lxor b0 b1) b2) b3) /\
     (b4 <> Z.lxor (Z.lxor (Z.lxor b0 b1) b2) b3 ->
      anticoll s = Ret (ERROR, None) s2)) /\
  (status <> OK \/ length back_data <> 5%nat ->
   anticoll s = Ret (ERROR, None) s2).
Proof.
  intros W C. unfold anticoll, bind. rewrite W, C. split.
  - intros b0 b1 b2 b3 b4 -> ->.
    cbn [StatusCodes.eqb StatusCodes.code length Nat.eqb andb seq fold_left nth firstn].
    change (0 =? 0) with true. cbn [andb]. rewrite Z.lxor_0_l.
    destruct (Z.eqb_spec (Z.lxor (Z.lxor (Z.lxor b0 b1) b2) b3) b4) as [E|E];
      cbn [negb]; unfold ret.
    + subst. repeat split; auto. congruence.
    + split; [split|]; auto; try discriminate. congruence.
  - intros [N|N].
    + destruct (StatusCodes.eqb status OK) eqn:Es; [|reflexivity].
      apply status_eqb_eq in Es. contradiction.
    + apply Nat.eqb_neq in N. rewrite N, andb_false_r. reflexivity.
Qed.

Lemma anticoll_result_witness :
  let s := uid_state 0x08 in
  let s1 := state_after (_write_register BIT_FRAMING_REG 0x00 s) in
  let s2 := state_after (_communicate_with_card TRANSCEIVE [ANTICOLL_1; 0x20]
                           default_timeout s1) in
  _write_register BIT_FRAMING_REG 0x00 s = Ret tt s1 /\
  _communicate_with_card TRANSCEIVE [ANTICOLL_1; 0x20] default_timeout s1 =
    Ret (OK, [0x12; 0x34; 0x56; 0x78; 0x08], 40) s2 /\
  (forall b0 b1 b2 b3 b4,
     OK = OK -> [0x12; 0x34; 0x56; 0x78; 0x08] = [b0; b1; b2; b3; b4] ->
     (anticoll s = Ret (OK, Some [b0; b1; b2; b3]) s2 <->
      b4 = Z.lxor (Z.lxor (Z.lxor b0 b1) b2) b3) /\
     (b4 <> Z.lxor (Z.lxor (Z.lxor b0 b1) b2) b3 ->
      anticoll s = Ret (ERROR, None) s2)) /\
  (OK <> OK \/ length [0x12; 0x34; 0x56; 0x78; 0x08] <> 5%nat ->
   anticoll s = Ret (ERROR, None) s2).
Proof.
  intros s s1 s2.
  split; [vm_compute; reflexivity|]. split; [vm_compute; reflexivity|].
  apply (anticoll_result s s1 OK [0x12; 0x34; 0x56; 0x78; 0x08] 40 s2);
    vm_compute; reflexivity.
Defined.

(** ** Chip lifecycle *)

Lemma lor_sets_mask v : Z.land (Z.lor v 0x03) 0x03 = 0x03.
Proof.
  rewrite Z.land_lor_distr_l.
  change (Z.land 3 3) with 3.
  change (Z.land v 3) with (Z.land v (Z.ones 2)).
  rewrite Z.land_ones by lia. change (2 ^ 2) with 4.
  pose proof (Z.mod_pos_bound v 4 eq_refl) as B.
  assert (v mod 4 = 0 \/ v mod 4 = 1 \/ v mod 4 = 2 \/ v mod 4 = 3) as C by lia.
  destruct C as [-> | [-> | [-> | ->]]]; reflexivity.
Qed.

(** C7 (amended): [antenna_on] reads the transmit-control register.  When
    both driver-enable bits (mask 0x03) are clear it sets both, by a
    read-modify-write whose written value has both bits set; when at least
    one of them is set it makes no further call, so it writes nothing. *)
Theorem antenna_on_trace s :
  let v := hd 0 (chip s TX_CONTROL_REG) in
  let again := hd 0 (tl (chip s TX_CONTROL_REG)) in
  returns antenna_on s tt
    (if Z.land v 0x03 =? 0
     then [RegRead TX_CONTROL_REG v; RegRead TX_CONTROL_REG again;
           RegWrite TX_CONTROL_REG (Z.lor again 0x03)]
     else [RegRead TX_CONTROL_REG v]) /\
  Z.land (Z.lor again 0x03) 0x03 = 0x03.
Proof.
  intros v again. split; [|apply lor_sets_mask].
  unfold returns, antenna_on, bind.
  rewrite _read_register_eq by reg_ok. fold v. unfold truthy.
  destruct (Z.land v 3 =? 0); cbn [negb].
  - unfold _set_bit_mask, bind.
    rewrite _read_register_eq by reg_ok.
    rewrite _write_register_eq by reg_ok.
    cbn [chip set_log set_chip log]. unfold upd. rewrite Z.eqb_refl.
    fold again. split; [reflexivity|]. now rewrite <- !app_assoc.
  - unfold ret. cbn [log set_log]. auto.
Qed.

(** C7, as stated, fails on this run: transmit control reads 0x01, bit 1 is
    clear, and [antenna_on] writes nothing. *)
Lemma antenna_on_leaves_one_driver_off :
  returns antenna_on half_on_state tt [RegRead TX_CONTROL_REG 0x01] /\
  Z.testbit 0x01 1 = false /\
  writes TX_CONTROL_REG [RegRead TX_CONTROL_REG 0x01] = [].
Proof. vm_compute. auto. Qed.

(** C8: on an initialized session a first [cleanup] pulses the reset line,
    releases it, closes the GPIO chip and the SPI channel, and leaves
    [_initialized] set.  A second [cleanup] therefore starts another reset
    pulse on the released line: with a GPIO library that refuses released
    lines it raises at the first [set_value]; with a lenient one it repeats
    the whole pulse and teardown.  Either way the second call is not the
    no-op the claim describes. *)
Theorem cleanup_twice_resets_released_line s :
  _initialized s = Some true ->
  rst_line s = Some true ->
  gpio_chip s = Some true ->
  spi s = Some true ->
  exists s1,
    cleanup s = Ret tt s1 /\
    log s1 = log s ++ reset_pulse ++ teardown /\
    rst_line s1 = Some false /\ gpio_chip s1 = Some false /\
    spi s1 = Some false /\ _initialized s1 = Some true /\
    if gpio_strict s
    then exists s2, cleanup s1 = Raise OSError s2 /\
                    log s2 = log s1 ++ [SetValue 0]
    else exists s2, cleanup s1 = Ret tt s2 /\
                    log s2 = log s1 ++ reset_pulse ++ teardown.
Proof.
  destruct s as [c clk libs f strict l sp gc rl ini]. cbn [_initialized rst_line gpio_chip spi gpio_strict log].
  intros -> -> -> ->.
  pose (s1 := fun strict =>
          state_after
            (cleanup (mkState c clk libs f strict l (Some true) (Some true)
                              (Some true) (Some true)))).
  exists (s1 strict).
  assert (Hl : forall (l0 : list event) e1 e2 e3 e4 e5 e6 e7,
             l0 ++ [e1; e2; e3; e4; e5; e6; e7] =
             ((((((l0 ++ [e1]) ++ [e2]) ++ [e3]) ++ [e4]) ++ [e5]) ++ [e6])
             ++ [e7])
    by (intros; now rewrite <- !app_assoc).
  unfold reset_pulse, teardown. cbn [app].
  split; [vm_compute; reflexivity|].
  split; [rewrite Hl; vm_compute; reflexivity|].
  do 4 (split; [vm_compute; reflexivity|]).
  destruct strict.
  - exists (state_after (cleanup (s1 true))). split; vm_compute; reflexivity.
  - exists (state_after (cleanup (s1 false))).
    split; [vm_compute; reflexivity|].
    rewrite Hl. vm_compute. reflexivity.
Qed.

Lemma cleanup_twice_resets_released_line_witness :
  _initialized live_session = Some true /\
  rst_line live_session = Some true /\
  gpio_chip live_session = Some true /\
  spi live_session = Some true /\
  exists s1,
    cleanup live_session = Ret tt s1 /\
    log s1 = log live_session ++ reset_pulse ++ teardown /\
    rst_line s1 = Some false /\ gpio_chip s1 = Some false /\
    spi s1 = Some false /\ _initialized s1 = Some true /\
    if gpio_strict live_session
    then exists s2, cleanup s1 = Raise OSError s2 /\
                    log s2 = log s1 ++ [SetValue 0]
    else exists s2, cleanup s1 = Ret tt s2 /\
                    log s2 = log s1 ++ reset_pulse ++ teardown.
Proof.
  repeat (split; [reflexivity|]).
  apply (cleanup_twice_resets_released_line live_session); reflexivity.
Defined.

(** A constructor that failed to open the GPIO chip leaves an object whose
    [cleanup] raises: [_initialized] was never assigned. *)
Lemma cleanup_after_failed_constructor :
  let o := __init__ 0 0 22 false (fresh NoChip) in
  o = Raise RC522CommunicationError (state_after o) /\
  cleanup (state_after o) = Raise AttributeError (state_after o).
Proof. vm_compute. auto. Qed.

(** The constructor on working hardware yields a session that the first
    [cleanup] closes and the second one trips over. *)
Lemma constructed_session_cleanup_twice :
  let o0 := __init__ 0 0 22 false (fresh NoFault) in
  let o1 := cleanup (state_after o0) in
  let o2 := cleanup (state_after o1) in
  o0 = Ret tt (state_after o0) /\
  o1 = Ret tt (state_after o1) /\
  o2 = Raise OSError (state_after o2) /\
  log (state_after o2) = log (state_after o1) ++ [SetValue 0].
Proof. vm_compute. auto. Qed.

(** ** Runs that return *)














Lemma nondecreasing_head a b rest :
  nondecreasing (a :: b :: rest) = true ->
  (a <= b)%Q /\ nondecreasing (b :: rest) = true.
Proof.
  simpl. intros H. apply andb_true_iff in H as (H1 & H2).
  split; [now apply Qle_bool_iff | exact H2].
Qed.



(** ** Register access: encoding and bit masks *)

(** X1: for every register address in [0,63], the two bytes
    [_write_register] sends are decoded by the chip as a write of the value
    to that register, and the bytes [_read_register] sends as a read of
    that register, answered with the next byte of its script: the address
    encoding of the library and the address format of the chip agree. *)
Theorem register_access_round_trip reg value s :
  valid_reg reg ->
  returns (_write_register reg value) s tt [RegWrite reg value] /\
  returns (_read_register reg) s (hd 0 (chip s reg))
          [RegRead reg (hd 0 (chip s reg))].
Proof.
  intros V. unfold returns.
  rewrite _write_register_eq, _read_register_eq by exact V.
  cbn [log set_log set_chip]. auto.
Qed.

Lemma register_access_round_trip_witness :
  valid_reg VERSION_REG /\
  returns (_write_register VERSION_REG 0x92) atqa_state tt
          [RegWrite VERSION_REG 0x92] /\
  returns (_read_register VERSION_REG) atqa_state
          (hd 0 (chip atqa_state VERSION_REG))
          [RegRead VERSION_REG (hd 0 (chip atqa_state VERSION_REG))].
Proof.
  split; [unfold valid_reg, VERSION_REG; lia|].
  apply (register_access_round_trip VERSION_REG 0x92 atqa_state).
  unfold valid_reg, VERSION_REG. lia.
Defined.

Lemma address_mask_wraps reg :
  Z.land (Z.shiftl (reg + 64) 1) 0x7E = Z.land (Z.shiftl reg 1) 0x7E.
Proof.
  assert (M : forall x, Z.land x 0x7E = Z.land (x mod 128) 0x7E).
  { intros x. change 0x7E with (Z.land (Z.ones 7) 0x7E) at 1.
    rewrite Z.land_assoc, Z.land_ones by lia. reflexivity. }
  rewrite (M (Z.shiftl (reg + 64) 1)), (M (Z.shiftl reg 1)).
  rewrite !Z.shiftl_mul_pow2 by lia. change (2 ^ 1) with 2.
  replace ((reg + 64) * 2) with (reg * 2 + 1 * 128) by lia.
  now rewrite Z.mod_add by lia.
Qed.

(** X2: register addresses are not range-checked: the address byte keeps
    only six address bits, so an access to register [reg + 64] is, transfer
    for transfer, an access to register [reg]. *)
Theorem register_address_aliases reg value s :
  _write_register (reg + 64) value s = _write_register reg value s /\
  _read_register (reg + 64) s = _read_register reg s.
Proof.
  unfold _write_register, _read_register.
  rewrite address_mask_wraps. auto.
Qed.

Lemma lor_mask_bits cur mask :
  Z.land (Z.lor cur mask) mask = mask /\
  Z.land (Z.lor cur mask) (Z.lnot mask) = Z.land cur (Z.lnot mask).
Proof.
  split; apply Z.bits_inj'; intros n Hn;
    rewrite ?Z.land_spec, ?Z.lor_spec, ?Z.lnot_spec by exact Hn;
    destruct (Z.testbit cur n), (Z.testbit mask n); reflexivity.
Qed.

Lemma land_lnot_mask_bits cur mask :
  Z.land (Z.land cur (Z.lnot mask)) mask = 0 /\
  Z.lor (Z.land cur (Z.lnot mask)) (Z.land cur mask) = cur.
Proof.
  split; apply Z.bits_inj'; intros n Hn;
    rewrite ?Z.lor_spec, ?Z.land_spec, ?Z.lnot_spec, ?Z.bits_0 by exact Hn;
    destruct (Z.testbit cur n), (Z.testbit mask n); reflexivity.
Qed.

Lemma land_lnot_mask_range cur mask :
  0 <= cur -> 0 <= Z.land cur (Z.lnot mask) <= cur.
Proof.
  intros H. destruct (land_lnot_mask_bits cur mask) as (D & S).
  assert (0 <= Z.land cur (Z.lnot mask)) by (apply Z.land_nonneg; auto).
  assert (0 <= Z.land cur mask) by (apply Z.land_nonneg; auto).
  pose proof (Z.add_lor_land (Z.land cur (Z.lnot mask)) (Z.land cur mask)) as A.
  rewrite S in A.
  assert (Z.land (Z.land cur (Z.lnot mask)) (Z.land cur mask) = 0) as Z0.
  { apply Z.bits_inj'; intros n Hn.
    rewrite ?Z.land_spec, ?Z.lnot_spec, ?Z.bits_0 by exact Hn.
    destruct (Z.testbit cur n), (Z.testbit mask n); reflexivity. }
  lia.
Qed.

(** X3: [_set_bit_mask] is one read followed by one write of the same
    register; the value written has every bit of the mask set and agrees
    with the value read on all other bits. *)
Theorem set_bit_mask_read_modify_write reg mask s :
  valid_reg reg ->
  let current := hd 0 (chip s reg) in
  returns (_set_bit_mask reg mask) s tt
          [RegRead reg current; RegWrite reg (Z.lor current mask)] /\
  Z.land (Z.lor current mask) mask = mask /\
  Z.land (Z.lor current mask) (Z.lnot mask) = Z.land current (Z.lnot mask).
Proof.
  intros V current. split; [|apply lor_mask_bits].
  unfold returns, _set_bit_mask, bind.
  rewrite _read_register_eq by exact V.
  rewrite _write_register_eq by exact V.
  cbn [log set_log set_chip]. fold current.
  split; [reflexivity | now rewrite <- app_assoc].
Qed.

Lemma set_bit_mask_read_modify_write_witness :
  valid_reg FIFO_LEVEL_REG /\
  let current := hd 0 (chip atqa_state FIFO_LEVEL_REG) in
  returns (_set_bit_mask FIFO_LEVEL_REG 0x80) atqa_state tt
          [RegRead FIFO_LEVEL_REG current;
           RegWrite FIFO_LEVEL_REG (Z.lor current 0x80)] /\
  Z.land (Z.lor current 0x80) 0x80 = 0x80 /\
  Z.land (Z.lor current 0x80) (Z.lnot 0x80) = Z.land current (Z.lnot 0x80).
Proof.
  split; [reg_ok|].
  apply (set_bit_mask_read_modify_write FIFO_LEVEL_REG 0x80 atqa_state).
  reg_ok.
Defined.

(** X4: [_clear_bit_mask] is one read followed by one write of the same
    register; the value written has every bit of the mask clear and agrees
    with the value read on all other bits.  For a value read that is not
    negative the value written lies between 0 and it, so a byte stays a
    byte although [~mask] is a negative number. *)
Theorem clear_bit_mask_read_modify_write reg mask s :
  valid_reg reg ->
  let current := hd 0 (chip s reg) in
  let written := Z.land current (Z.lnot mask) in
  returns (_clear_bit_mask reg mask) s tt
          [RegRead reg current; RegWrite reg written] /\
  Z.land written mask = 0 /\
  Z.lor written (Z.land current mask) = current /\
  (0 <= current -> 0 <= written <= current).
Proof.
  intros V current written.
  split; [|split; [apply land_lnot_mask_bits|
           split; [apply land_lnot_mask_bits | apply land_lnot_mask_range]]].
  unfold returns, _clear_bit_mask, bind.
  rewrite _read_register_eq by exact V.
  rewrite _write_register_eq by exact V.
  cbn [log set_log set_chip]. fold current. fold written.
  split; [reflexivity | now rewrite <- app_assoc].
Qed.

Lemma clear_bit_mask_read_modify_write_witness :
  valid_reg BIT_FRAMING_REG /\
  let current := hd 0 (chip atqa_state BIT_FRAMING_REG) in
  let written := Z.land current (Z.lnot 0x80) in
  returns (_clear_bit_mask BIT_FRAMING_REG 0x80) atqa_state tt
          [RegRead BIT_FRAMING_REG current; RegWrite BIT_FRAMING_REG written] /\
  Z.land written 0x80 = 0 /\
  Z.lor written (Z.land current 0x80) = current /\
  (0 <= current -> 0 <= written <= current).
Proof.
  split; [reg_ok|].
  apply (clear_bit_mask_read_modify_write BIT_FRAMING_REG 0x80 atqa_state).
  reg_ok.
Defined.

(** ** What a call may do: calls made and attributes kept *)

Lemma only_ret P {A} (a : A) : only P (ret a).
Proof. intros s. exists []. now rewrite app_nil_r. Qed.

Lemma only_raise P {A} e : only P (@raise A e).
Proof. intros s. exists []. now rewrite app_nil_r. Qed.

Lemma only_get P {A} (f : state -> A) : only P (get f).
Proof. intros s. exists []. now rewrite app_nil_r. Qed.

Lemma only_modify P f : (forall s, log (f s) = log s) -> only P (modify f).
Proof. intros H s. exists []. cbn. now rewrite H, app_nil_r. Qed.

Lemma only_emit (P : event -> bool) e : P e = true -> only P (emit e).
Proof. intros H s. exists [e]. cbn. now rewrite H. Qed.

Lemma only_bind P {A B} (c : M A) (k : A -> M B) :
  only P c -> (forall a, only P (k a)) -> only P (bind c k).
Proof.
  intros Hc Hk s. unfold bind. specialize (Hc s).
  destruct (c s) as [a s1|e s1|]; [|exact Hc|exact Hc].
  destruct Hc as (tr1 & L1 & F1). specialize (Hk a s1).
  destruct (k a s1) as [b s2|e s2|]; [| |exact Hk];
    destruct Hk as (tr2 & L2 & F2); exists (tr1 ++ tr2);
    rewrite L2, L1, <- app_assoc, forallb_app, F1, F2; auto.
Qed.

Lemma only_weaken (P Q : event -> bool) {A} (c : M A) :
  (forall e, P e = true -> Q e = true) -> only P c -> only Q c.
Proof.
  intros I H s. specialize (H s).
  destruct (c s) as [a s1|e s1|]; [| |exact H];
    destruct H as (tr & L & F); exists tr; (split; [exact L|]);
    rewrite forallb_forall in *; auto.
Qed.

Lemma keeps_ret {X} (f : state -> X) {A} (a : A) : keeps f (ret a).
Proof. intros s. reflexivity. Qed.

Lemma keeps_raise {X} (f : state -> X) {A} e : keeps f (@raise A e).
Proof. intros s. reflexivity. Qed.

Lemma keeps_get {X} (f : state -> X) {A} (g : state -> A) : keeps f (get g).
Proof. intros s. reflexivity. Qed.

Lemma keeps_emit {X} (f : state -> X) e :
  (forall s l, f (set_log s l) = f s) -> keeps f (emit e).
Proof. intros H s. cbn. apply H. Qed.

Lemma keeps_modify {X} (f : state -> X) g :
  (forall s, f (g s) = f s) -> keeps f (modify g).
Proof. intros H s. cbn. apply H. Qed.

Lemma keeps_bind {X} (f : state -> X) {A B} (c : M A) (k : A -> M B) :
  keeps f c -> (forall a, keeps f (k a)) -> keeps f (bind c k).
Proof.
  intros Hc Hk s. unfold bind. specialize (Hc s).
  destruct (c s) as [a s1|e s1|]; [|exact Hc|exact I].
  specialize (Hk a s1).
  destruct (k a s1) as [b s2|e s2|]; [| |exact I]; congruence.
Qed.

Lemma only_gpio_call P attr e : P e = true -> only P (gpio_call attr e).
Proof.
  intros H. unfold gpio_call. apply only_bind; [apply only_get|].
  intros [live|]; [|apply only_raise].
  apply only_bind; [now apply only_emit|]. intros _.
  apply only_bind; [apply only_get|]. intros strict.
  destruct (live || negb strict); [apply only_ret | apply only_raise].
Qed.

Lemma keeps_gpio_call {X} (f : state -> X) attr e :
  (forall s l, f (set_log s l) = f s) -> keeps f (gpio_call attr e).
Proof.
  intros H. unfold gpio_call. apply keeps_bind; [apply keeps_get|].
  intros [live|]; [|apply keeps_raise].
  apply keeps_bind; [now apply keeps_emit|]. intros _.
  apply keeps_bind; [apply keeps_get|]. intros strict.
  destruct (live || negb strict); [apply keeps_ret | apply keeps_raise].
Qed.

Lemma only_reset : only pulse_event _reset.
Proof.
  unfold _reset, set_value, sleep.
  repeat (apply only_bind; [|intros _]);
    try (apply only_gpio_call; reflexivity); now apply only_emit.
Qed.

Lemma keeps_reset {X} (f : state -> X) :
  (forall s l, f (set_log s l) = f s) -> keeps f _reset.
Proof.
  intros H. unfold _reset, set_value, sleep.
  repeat (apply keeps_bind; [|intros _]);
    try (now apply keeps_gpio_call); now apply keeps_emit.
Qed.

(** ** Tear-down *)

Lemma only_inv P {A} (c : M A) s a s' :
  only P c -> c s = Ret a s' ->
  exists tr, log s' = log s ++ tr /\ forallb P tr = true.
Proof. intros H E. specialize (H s). now rewrite E in H. Qed.

Lemma keeps_inv {X} (f : state -> X) {A} (c : M A) s a s' :
  keeps f c -> c s = Ret a s' -> f s' = f s.
Proof. intros H E. specialize (H s). now rewrite E in H. Qed.

Lemma only_has_handle P attr : only P (has_handle attr).
Proof.
  unfold has_handle. apply only_bind; [apply only_get|].
  intros h. apply only_ret.
Qed.

Lemma only_release : only release_event release.
Proof.
  unfold release. apply only_bind; [now apply only_gpio_call|].
  intros _. now apply only_modify.
Qed.

Lemma only_close_gpio_chip : only release_event close_gpio_chip.
Proof.
  unfold close_gpio_chip. apply only_bind; [now apply only_gpio_call|].
  intros _. now apply only_modify.
Qed.

Lemma only_close_spi : only release_event close_spi.
Proof.
  unfold close_spi. apply only_bind; [apply only_get|].
  intros [h|]; [|apply only_raise].
  apply only_bind; [now apply only_emit|]. intros _. now apply only_modify.
Qed.

(** What [cleanup] does after the reset pulse. *)
Lemma only_cleanup_tail {A} (c : M A) P :
  (forall e, release_event e = true -> P e = true) ->
  only P c ->
  only P (c ;;
          has_line <- has_handle rst_line ;;
          (if has_line then release else ret tt) ;;
          has_chip <- has_handle gpio_chip ;;
          (if has_chip then close_gpio_chip else ret tt) ;;
          close_spi).
Proof.
  intros I Hc.
  apply only_bind; [exact Hc|]. intros _.
  apply only_bind; [apply only_has_handle|]. intros has_line.
  apply only_bind.
  { destruct has_line; [|apply only_ret].
    apply (only_weaken release_event); [exact I | apply only_release]. }
  intros _. apply only_bind; [apply only_has_handle|]. intros has_chip.
  apply only_bind.
  { destruct has_chip; [|apply only_ret].
    apply (only_weaken release_event); [exact I | apply only_close_gpio_chip]. }
  intros _. apply (only_weaken release_event); [exact I | apply only_close_spi].
Qed.


(** X6: [cleanup] never changes [_initialized], whether it returns or
    raises: a session that was initialized is still marked so after it has
    been torn down. *)
Theorem cleanup_keeps_initialized_flag : keeps _initialized cleanup.
Proof.
  unfold cleanup. apply keeps_bind; [apply keeps_get|].
  intros [flag|]; [|apply keeps_raise].
  apply keeps_bind.
  { destruct flag; [now apply keeps_reset | apply keeps_ret]. }
  intros _. unfold has_handle, release, close_gpio_chip, close_spi.
  repeat first
    [ apply keeps_ret | apply keeps_raise | apply keeps_get
    | now apply keeps_emit | now apply keeps_modify
    | now apply keeps_gpio_call
    | apply keeps_bind; [|intros ?]
    | match goal with
      | |- keeps _ (if ?b then _ else _) => destruct b
      | |- keeps _ (match ?h with _ => _ end) => destruct h
      end ].
Qed.

(** X8: on a session not marked initialized [cleanup] makes no call on the
    reset line's value: whatever it does is releasing the line, closing the
    GPIO chip and closing the SPI channel. *)
Theorem cleanup_uninitialized_skips_reset s :
  _initialized s = Some false ->
  match cleanup s with
  | Ret _ s' | Raise _ s' =>
      exists tr, log s' = log s ++ tr /\ forallb release_event tr = true
  | Hang => False
  end.
Proof.
  intros H.
  pose proof (only_cleanup_tail (ret tt) release_event (fun e E => E)
                (only_ret _ tt) s) as T.
  unfold cleanup. unfold bind at 1. unfold get. rewrite H. exact T.
Qed.

Lemma cleanup_uninitialized_skips_reset_witness :
  _initialized (set_initialized live_session (Some false)) = Some false /\
  match cleanup (set_initialized live_session (Some false)) with
  | Ret _ s' | Raise _ s' =>
      exists tr,
        log s' = log (set_initialized live_session (Some false)) ++ tr /\
        forallb release_event tr = true
  | Hang => False
  end.
Proof.
  split; [reflexivity|].
  apply (cleanup_uninitialized_skips_reset
           (set_initialized live_session (Some false))).
  reflexivity.
Defined.

Lemma release_inv s u s' :
  release s = Ret u s' ->
  rst_line s' = Some false /\ gpio_chip s' = gpio_chip s /\
  spi s' = spi s /\ log s' = log s ++ [LineRelease].
Proof.
  unfold release, gpio_call, bind, get, emit, modify, raise, ret.
  destruct (rst_line s) as [live|]; [|discriminate]. cbn.
  destruct (live || negb (gpio_strict s)); intros H; inversion H; cbn; auto.
Qed.

Lemma close_gpio_chip_inv s u s' :
  close_gpio_chip s = Ret u s' ->
  gpio_chip s' = Some false /\ rst_line s' = rst_line s /\
  spi s' = spi s /\ log s' = log s ++ [ChipClose].
Proof.
  unfold close_gpio_chip, gpio_call, bind, get, emit, modify, raise, ret.
  destruct (gpio_chip s) as [live|]; [|discriminate]. cbn.
  destruct (live || negb (gpio_strict s)); intros H; inversion H; cbn; auto.
Qed.

Lemma close_spi_inv s u s' :
  close_spi s = Ret u s' ->
  spi s' = Some false /\ rst_line s' = rst_line s /\
  gpio_chip s' = gpio_chip s /\ log s' = log s ++ [SpiClose].
Proof.
  unfold close_spi, bind, get, emit, modify, raise, ret.
  destruct (spi s) as [h|]; [|discriminate]. cbn.
  intros H; inversion H; cbn; auto.
Qed.

Lemma has_handle_inv attr s b s' :
  has_handle attr s = Ret b s' ->
  s' = s /\ (b = false <-> attr s = None).
Proof.
  unfold has_handle, bind, get, ret. intros H. inversion H. subst.
  split; [reflexivity|]. destruct (attr s'); split; congruence.
Qed.

(** X7: when [cleanup] returns, the SPI channel is closed, neither the
    reset line nor the GPIO chip is left live, and closing the SPI channel
    was the last call made. *)
Theorem cleanup_returns_closed s s' :
  cleanup s = Ret tt s' ->
  spi s' = Some false /\
  rst_line s' <> Some true /\
  gpio_chip s' <> Some true /\
  exists before, log s' = log s ++ before ++ [SpiClose].
Proof.
  intros H. unfold cleanup in H.
  apply bind_inv in H as (i & s0 & H0 & H).
  unfold get in H0. inversion H0; subst i s0; clear H0.
  destruct (_initialized s) as [flag|]; [|discriminate].
  apply bind_inv in H as (u1 & s1 & H1 & H).
  assert (exists tr1, log s1 = log s ++ tr1) as (tr1 & L1).
  { destruct flag.
    - destruct (only_inv _ _ _ _ _ only_reset H1) as (tr & L & _). eauto.
    - apply ret_inv in H1 as (_ & ->). exists []. now rewrite app_nil_r. }
  apply bind_inv in H as (b & s1' & Hb & H).
  apply has_handle_inv in Hb as (-> & Hb).
  apply bind_inv in H as (u2 & s2 & H2 & H).
  assert (rst_line s2 <> Some true /\ exists tr2, log s2 = log s1 ++ tr2)
    as (R2 & tr2 & L2).
  { destruct b.
    - apply release_inv in H2 as (R & _ & _ & L). rewrite R.
      split; [discriminate | eauto].
    - apply ret_inv in H2 as (_ & ->).
      rewrite (proj1 Hb eq_refl). split; [discriminate|].
      exists []. now rewrite app_nil_r. }
  apply bind_inv in H as (b' & s2' & Hb' & H).
  apply has_handle_inv in Hb' as (-> & Hb').
  apply bind_inv in H as (u3 & s3 & H3 & H).
  assert (gpio_chip s3 <> Some true /\ rst_line s3 = rst_line s2 /\
          exists tr3, log s3 = log s2 ++ tr3) as (G3 & R3 & tr3 & L3).
  { destruct b'.
    - apply close_gpio_chip_inv in H3 as (G & R & _ & L). rewrite G.
      split; [discriminate | eauto].
    - apply ret_inv in H3 as (_ & ->).
      rewrite (proj1 Hb' eq_refl). split; [discriminate|].
      split; [reflexivity|]. exists []. now rewrite app_nil_r. }
  apply close_spi_inv in H as (S4 & R4 & G4 & L4).
  split; [exact S4|]. split; [congruence|]. split; [congruence|].
  exists (tr1 ++ tr2 ++ tr3).
  rewrite L4, L3, L2, L1, <- !app_assoc. reflexivity.
Qed.

Lemma cleanup_returns_closed_witness :
  cleanup live_session = Ret tt (state_after (cleanup live_session)) /\
  spi (state_after (cleanup live_session)) = Some false /\
  rst_line (state_after (cleanup live_session)) <> Some true /\
  gpio_chip (state_after (cleanup live_session)) <> Some true /\
  exists before,
    log (state_after (cleanup live_session)) =
    log live_session ++ before ++ [SpiClose].
Proof.
  split; [vm_compute; reflexivity|].
  apply (cleanup_returns_closed live_session
           (state_after (cleanup live_session))).
  vm_compute. reflexivity.
Defined.

(** ** Initialization and the constructor *)

Ltac valid_const := unfold valid_reg; cbv; split; [discriminate | reflexivity].

Lemma runs_bind {A B} (c : M A) (k : A -> M B) s a tr1 s1 b tr2 s2 :
  runs c s a tr1 s1 -> runs (k a) s1 b tr2 s2 ->
  runs (bind c k) s b (tr1 ++ tr2) s2.
Proof.
  unfold runs, bind. intros (-> & L1) (-> & L2).
  split; [reflexivity|]. now rewrite L2, L1, <- app_assoc.
Qed.

Lemma runs_returns {A} (c : M A) s a tr s' :
  runs c s a tr s' -> returns c s a tr.
Proof. unfold runs, returns. intros (-> & L). auto. Qed.

Lemma frame_handle s s' : frame s s' -> rst_line s' = rst_line s.
Proof. unfold frame, handles. intros (_ & H & _). now inversion H. Qed.

Lemma frame_trans s1 s2 s3 : frame s1 s2 -> frame s2 s3 -> frame s1 s3.
Proof. unfold frame. intros (A & B & C) (D & E & F). repeat split; congruence. Qed.

Lemma runs_trace {A} (c : M A) s a tr tr' s' :
  runs c s a tr s' -> tr = tr' -> runs c s a tr' s'.
Proof. now intros H <-. Qed.

Lemma runs_modify f s : log (f s) = log s -> runs (modify f) s tt [] (f s).
Proof. intros H. split; [reflexivity | now rewrite H, app_nil_r]. Qed.

Ltac chain := repeat (eapply runs_bind; [eassumption|]).

Lemma write_ok reg value s :
  valid_reg reg ->
  exists s', runs (_write_register reg value) s tt [RegWrite reg value] s' /\
             frame s s'.
Proof.
  intros V. exists (set_log s (log s ++ [RegWrite reg value])).
  repeat split. now apply _write_register_eq.
Qed.

Lemma emit_ok e s : exists s', runs (emit e) s tt [e] s' /\ frame s s'.
Proof. exists (set_log s (log s ++ [e])). repeat split. Qed.

Lemma set_value_ok v s :
  rst_line s = Some true ->
  exists s', runs (set_value v) s tt [SetValue v] s' /\ frame s s'.
Proof.
  intros H. exists (set_log s (log s ++ [SetValue v])). repeat split.
  unfold set_value, gpio_call, bind, get, emit, ret.
  rewrite H. reflexivity.
Qed.

Lemma antenna_on_ok s :
  exists s', runs antenna_on s tt (antenna_calls (chip s)) s' /\
             handles s' = handles s /\ _initialized s' = _initialized s.
Proof.
  unfold runs, antenna_on, antenna_calls, bind.
  rewrite _read_register_eq by reg_ok. unfold truthy.
  destruct (Z.land (hd 0 (chip s TX_CONTROL_REG)) 3 =? 0); cbn [negb].
  - unfold _set_bit_mask, bind.
    rewrite _read_register_eq by reg_ok.
    rewrite _write_register_eq by reg_ok.
    cbn [chip set_log set_chip log]. unfold upd.
    rewrite Z.eqb_refl. eexists. split; [split; [reflexivity|]|].
    + cbn [log set_log]. now rewrite <- !app_assoc.
    + split; reflexivity.
  - unfold ret. eexists. split; [split; [reflexivity|]|].
    + reflexivity.
    + split; reflexivity.
Qed.

Lemma reset_ok s :
  rst_line s = Some true ->
  exists s', runs _reset s tt reset_pulse s' /\ frame s s'.
Proof.
  intros H. unfold _reset, sleep.
  destruct (set_value_ok 0 s H) as (s1 & R1 & F1).
  destruct (emit_ok (Sleep 0.05%Q) s1) as (s2 & R2 & F2).
  assert (H2 : rst_line s2 = Some true)
    by (rewrite (frame_handle _ _ F2), (frame_handle _ _ F1); exact H).
  destruct (set_value_ok 1 s2 H2) as (s3 & R3 & F3).
  destruct (emit_ok (Sleep 0.05%Q) s3) as (s4 & R4 & F4).
  exists s4. split.
  - eapply runs_trace; [chain; eassumption | reflexivity].
  - eauto using frame_trans.
Qed.

Lemma initialize_ok s :
  rst_line s = Some true ->
  exists s',
    runs initialize s tt
         (reset_pulse ++ init_writes ++ antenna_calls (chip s)) s' /\
    handles s' = handles s /\ _initialized s' = Some true.
Proof.
  intros H. unfold initialize, sleep.
  destruct (reset_ok s H) as (s1 & R1 & F1).
  destruct (write_ok COMMAND_REG SOFT_RESET s1) as (s2 & R2 & F2);
    [valid_const|].
  destruct (emit_ok (Sleep 0.05%Q) s2) as (s3 & R3 & F3).
  destruct (write_ok T_MODE_REG 0x8D s3) as (s4 & R4 & F4); [valid_const|].
  destruct (write_ok T_PRESCALER_REG 0x3E s4) as (s5 & R5 & F5);
    [valid_const|].
  destruct (write_ok T_RELOAD_REG_L 30 s5) as (s6 & R6 & F6); [valid_const|].
  destruct (write_ok T_RELOAD_REG_H 0 s6) as (s7 & R7 & F7); [valid_const|].
  destruct (write_ok TX_AUTO_REG 0x40 s7) as (s8 & R8 & F8); [valid_const|].
  destruct (write_ok MODE_REG 0x3D s8) as (s9 & R9 & F9); [valid_const|].
  destruct (antenna_on_ok s9) as (s10 & R10 & H10 & I10).
  assert (F : frame s s9) by eauto 12 using frame_trans.
  exists (set_initialized s10 (Some true)). split; [|split].
  - eapply runs_trace.
    + chain. apply runs_modify. reflexivity.
    + destruct F as (-> & _). cbn [app]. now rewrite app_nil_r.
  - destruct F as (_ & Hh & _). cbn. unfold handles in *. cbn.
    congruence.
  - reflexivity.
Qed.










(** X11: when the hardware libraries are there but acquiring the reset
    line fails, at any of its three steps, the constructor raises
    [RC522CommunicationError] with the SPI channel already opened and left
    open; [_initialized] is never assigned, so on an object that had none
    [cleanup] raises instead of closing the channel. *)
Theorem constructor_failure spi_bus spi_device rst_pin debug s :
  hw_libs s = true ->
  fault s <> NoFault ->
  exists s',
    __init__ spi_bus spi_device rst_pin debug s =
    Raise RC522CommunicationError s' /\
    log s' = log s ++ [SpiOpen spi_bus spi_device] /\
    spi s' = Some true /\
    _initialized s' = _initialized s /\
    (_initialized s = None -> cleanup s' = Raise AttributeError s').
Proof.
  intros H F. unfold __init__, acquire_reset_line, bind, get, modify, emit.
  rewrite H. cbn [negb fault set_spi set_log set_gpio_chip set_rst_line].
  destruct (fault s) eqn:Ef; [contradiction| | |];
    (eexists; split; [reflexivity|]; split; [reflexivity|];
     split; [reflexivity|]; split; [reflexivity|];
     cbn [_initialized set_log set_spi set_gpio_chip set_rst_line];
     intros I; unfold cleanup, bind, get;
     cbn [_initialized set_log set_spi set_gpio_chip set_rst_line];
     rewrite I; reflexivity).
Qed.

Lemma constructor_failure_witness :
  hw_libs (fresh LineBusy) = true /\
  fault (fresh LineBusy) <> NoFault /\
  exists s',
    __init__ 0 0 22 false (fresh LineBusy) =
    Raise RC522CommunicationError s' /\
    log s' = log (fresh LineBusy) ++ [SpiOpen 0 0] /\
    spi s' = Some true /\
    _initialized s' = _initialized (fresh LineBusy) /\
    (_initialized (fresh LineBusy) = None ->
     cleanup s' = Raise AttributeError s').
Proof.
  split; [reflexivity|]. split; [discriminate|].
  apply (constructor_failure 0 0 22 false (fresh LineBusy));
    [reflexivity | discriminate].
Defined.

(** X12: with the hardware libraries and no fault on the reset line, the
    constructor returns a session with the SPI channel open, the GPIO chip
    open, the reset line requested and [_initialized] set; its calls are
    opening the channel, requesting the line, and those of
    [initialize]. *)
Theorem constructor_success spi_bus spi_device rst_pin debug s :
  hw_libs s = true ->
  fault s = NoFault ->
  exists s',
    __init__ spi_bus spi_device rst_pin debug s = Ret tt s' /\
    log s' = log s ++ [SpiOpen spi_bus spi_device; LineRequest rst_pin]
             ++ reset_pulse ++ init_writes ++ antenna_calls (chip s) /\
    spi s' = Some true /\ gpio_chip s' = Some true /\
    rst_line s' = Some true /\ _initialized s' = Some true.
Proof.
  intros H F. unfold __init__, acquire_reset_line, bind, get, modify, emit.
  rewrite H. cbn [negb fault set_spi set_log set_gpio_chip set_rst_line].
  rewrite F.
  cbn [negb fault set_spi set_log set_gpio_chip set_rst_line set_initialized].
  match goal with
  | |- exists s', initialize ?s5 = _ /\ _ =>
      destruct (initialize_ok s5 eq_refl) as (s' & (E & L) & Hh & Hi)
  end.
  exists s'. split; [exact E|]. split.
  - rewrite L.
    cbn [log chip set_spi set_log set_gpio_chip set_rst_line set_initialized].
    now rewrite <- !app_assoc.
  - unfold handles in Hh.
    cbn [spi gpio_chip rst_line gpio_strict set_spi set_log set_gpio_chip
         set_rst_line set_initialized] in Hh.
    inversion Hh. repeat split; congruence.
Qed.

Lemma constructor_success_witness :
  hw_libs (fresh NoFault) = true /\
  fault (fresh NoFault) = NoFault /\
  exists s',
    __init__ 0 0 22 false (fresh NoFault) = Ret tt s' /\
    log s' = log (fresh NoFault) ++ [SpiOpen 0 0; LineRequest 22]
             ++ reset_pulse ++ init_writes
             ++ antenna_calls (chip (fresh NoFault)) /\
    spi s' = Some true /\ gpio_chip s' = Some true /\
    rst_line s' = Some true /\ _initialized s' = Some true.
Proof.
  split; [reflexivity|]. split; [reflexivity|].
  apply (constructor_success 0 0 22 false (fresh NoFault)); reflexivity.
Defined.

(** ** Transceive engine: what every returning run does *)

Lemma writes_cons reg e tr :
  writes reg (e :: tr) =
  match e with
  | RegWrite r v => if r =? reg then [v] else []
  | _ => []
  end ++ writes reg tr.
Proof. reflexivity. Qed.

Lemma writes_nil reg : writes reg [] = [].
Proof. reflexivity. Qed.

Lemma writes_map_Write reg r l :
  writes reg (map (RegWrite r) l) = if r =? reg then l else [].
Proof.
  induction l as [|v l IH]; simpl.
  - destruct (r =? reg); reflexivity.
  - fold (writes reg (map (RegWrite r) l)). rewrite IH.
    destruct (r =? reg); reflexivity.
Qed.

Lemma writes_map_Read reg r l : writes reg (map (RegRead r) l) = [].
Proof. induction l; simpl; auto. Qed.

Lemma poll_trace_writes start_time timeout reg n tr n' :
  poll_trace start_time timeout n tr n' -> writes reg tr = [].
Proof. induction 1; rewrite ?writes_cons; cbn [app]; auto. Qed.

Lemma ending_writes command n late tail r reg :
  ending command n late tail r -> writes reg tail = [].
Proof.
  destruct 1; rewrite ?writes_cons, ?writes_map_Read; reflexivity.
Qed.

Lemma writes_comm reg command send_data fl0 bf0 start_time timeout polled n0 n
      bf1 w now late tail r :
  poll_trace start_time timeout n0 polled n ->
  ending command n late tail r ->
  writes reg (prologue command send_data fl0 bf0
              ++ Clock start_time :: polled
              ++ RegRead BIT_FRAMING_REG bf1 :: RegWrite BIT_FRAMING_REG w
                 :: Clock now :: tail) =
  (if COMMAND_REG =? reg then [IDLE] else [])
  ++ (if COM_IRQ_REG =? reg then [0x7F] else [])
  ++ (if FIFO_LEVEL_REG =? reg then [Z.lor fl0 0x80] else [])
  ++ (if FIFO_DATA_REG =? reg then send_data else [])
  ++ (if COMMAND_REG =? reg then [command] else [])
  ++ (if command =? TRANSCEIVE
      then if BIT_FRAMING_REG =? reg then [Z.lor bf0 0x80] else []
      else [])
  ++ (if BIT_FRAMING_REG =? reg then [w] else []).
Proof.
  intros P E. unfold prologue.
  rewrite !writes_app, !writes_cons, writes_app, !writes_cons,
    writes_map_Write, (poll_trace_writes _ _ _ _ _ _ P),
    (ending_writes _ _ _ _ _ reg E).
  destruct (command =? TRANSCEIVE);
    rewrite ?writes_cons, ?writes_nil; cbn [app];
    rewrite ?app_nil_r, <- ?app_assoc; reflexivity.
Qed.

(** X13: every returning call loads the FIFO with exactly the bytes of
    [send_data], in order; writes IDLE and then the command to the command
    register; clears the interrupt flags with 0x7F; and flushes the FIFO by
    writing the FIFO level it read with bit 7 set. *)
Theorem transceive_loads_frame command send_data timeout s r tr :
  returns (_communicate_with_card command send_data timeout) s r tr ->
  writes FIFO_DATA_REG tr = send_data /\
  writes COMMAND_REG tr = [IDLE; command] /\
  writes COM_IRQ_REG tr = [0x7F] /\
  exists flushed later,
    reads FIFO_LEVEL_REG tr = flushed :: later /\
    writes FIFO_LEVEL_REG tr = [Z.lor flushed 0x80].
Proof.
  intros R. apply communicate_inv in R.
  inversion R as [fl0 bf0 t0 polled n bf1 now tail r' P E Htr Hr]; subst;
    clear R.
  rewrite !(writes_comm _ _ _ _ _ _ _ _ _ _ _ _ _ _ _ _ P E).
  rewrite (reads_comm _ _ _ _ _ _ _ _ _ _ _ _ _ _ P) by discriminate.
  read_tail.
  destruct (command =? TRANSCEIVE); cbn [app]; rewrite ?app_nil_r;
    repeat split; eauto.
Qed.

Lemma transceive_loads_frame_witness :
  returns (_communicate_with_card TRANSCEIVE [REQUEST_A] default_timeout)
          atqa_state (OK, [0x04; 0x00], 16) atqa_trace /\
  writes FIFO_DATA_REG atqa_trace = [REQUEST_A] /\
  writes COMMAND_REG atqa_trace = [IDLE; TRANSCEIVE] /\
  writes COM_IRQ_REG atqa_trace = [0x7F] /\
  exists flushed later,
    reads FIFO_LEVEL_REG atqa_trace = flushed :: later /\
    writes FIFO_LEVEL_REG atqa_trace = [Z.lor flushed 0x80].
Proof.
  split; [vm_compute; auto|].
  apply (transceive_loads_frame TRANSCEIVE [REQUEST_A] default_timeout
           atqa_state (OK, [0x04; 0x00], 16) atqa_trace).
  vm_compute. auto.
Defined.

Lemma bit7_cleared v : Z.testbit (Z.land v (Z.lnot 0x80)) 7 = false.
Proof.
  rewrite Z.land_spec, Z.lnot_spec by lia.
  change (Z.testbit 0x80 7) with true. now rewrite andb_false_r.
Qed.

Lemma bit7_set v : Z.testbit (Z.lor v 0x80) 7 = true.
Proof.
  rewrite Z.lor_spec. change (Z.testbit 0x80 7) with true.
  now rewrite orb_true_r.
Qed.

(** X14: in every returning call, whatever its result, the last write to
    the bit-framing register has the start-send bit (bit 7) clear.  A
    transceive command makes one write before it, with the bit set; any
    other command makes none. *)
Theorem start_send_bit_cleared command send_data timeout s r tr :
  returns (_communicate_with_card command send_data timeout) s r tr ->
  exists earlier final,
    writes BIT_FRAMING_REG tr = earlier ++ [final] /\
    Z.testbit final 7 = false /\
    (command <> TRANSCEIVE -> earlier = []) /\
    (command = TRANSCEIVE ->
     exists started, earlier = [started] /\ Z.testbit started 7 = true).
Proof.
  intros R. apply communicate_inv in R.
  inversion R as [fl0 bf0 t0 polled n bf1 now tail r' P E Htr Hr]; subst;
    clear R.
  rewrite (writes_comm _ _ _ _ _ _ _ _ _ _ _ _ _ _ _ _ P E).
  read_tail.
  destruct (Z.eqb_spec command TRANSCEIVE) as [C|C]; cbn [app].
  - exists [Z.lor bf0 0x80], (Z.land bf1 (Z.lnot 0x80)).
    split; [reflexivity|]. split; [apply bit7_cleared|].
    split; [contradiction|]. intros _. exists (Z.lor bf0 0x80).
    split; [reflexivity | apply bit7_set].
  - exists [], (Z.land bf1 (Z.lnot 0x80)).
    split; [reflexivity|]. split; [apply bit7_cleared|].
    split; [reflexivity | contradiction].
Qed.

Lemma start_send_bit_cleared_witness :
  returns (_communicate_with_card TRANSCEIVE [REQUEST_A] default_timeout)
          silent_state (TIMEOUT, [], 0) silent_trace /\
  exists earlier final,
    writes BIT_FRAMING_REG silent_trace = earlier ++ [final] /\
    Z.testbit final 7 = false /\
    (TRANSCEIVE <> TRANSCEIVE -> earlier = []) /\
    (TRANSCEIVE = TRANSCEIVE ->
     exists started, earlier = [started] /\ Z.testbit started 7 = true).
Proof.
  split; [vm_compute; auto|].
  apply (start_send_bit_cleared TRANSCEIVE [REQUEST_A] default_timeout
           silent_state (TIMEOUT, [], 0) silent_trace).
  vm_compute. auto.
Defined.

(** X15: a call that reads one of the error bits 0x1B in the error register
    returns (ERROR, [], 0) and stops there: it reads neither the control
    register nor the FIFO data register, and the only read of the FIFO
    level is the one of the flush. *)
Theorem error_register_error command send_data timeout s status back_data
        back_len tr err :
  returns (_communicate_with_card command send_data timeout) s
          (status, back_data, back_len) tr ->
  reads ERROR_REG tr = [err] ->
  Z.land err 0x1B <> 0 ->
  status = ERROR /\ back_data = [] /\ back_len = 0 /\
  reads CONTROL_REG tr = [] /\
  reads FIFO_DATA_REG tr = [] /\
  length (reads FIFO_LEVEL_REG tr) = 1%nat.
Proof.
  intros R He Hz. apply communicate_inv in R.
  inversion R as [fl0 bf0 t0 polled n bf1 now tail r P E Htr Hr]; subst;
    clear R.
  rewrite (reads_comm _ _ _ _ _ _ _ _ _ _ _ _ _ _ P) in He by discriminate.
  rewrite !(reads_comm _ _ _ _ _ _ _ _ _ _ _ _ _ _ P) by discriminate.
  inversion E as [L | e L Er | e v L Er Hn C | e v fl c data L Er Hn C Hlen];
    subst; read_tail; try discriminate.
  - repeat split; reflexivity.
  - inversion He; subst e. apply truthy_false in Er. contradiction.
  - inversion He; subst e. apply truthy_false in Er. contradiction.
Qed.

Lemma error_register_error_witness :
  returns (_communicate_with_card TRANSCEIVE [REQUEST_A] default_timeout)
          parity_error_state (ERROR, [], 0) parity_error_trace /\
  reads ERROR_REG parity_error_trace = [0x02] /\
  Z.land 0x02 0x1B <> 0 /\
  ERROR = ERROR /\ @nil Z = [] /\ 0 = 0 /\
  reads CONTROL_REG parity_error_trace = [] /\
  reads FIFO_DATA_REG parity_error_trace = [] /\
  length (reads FIFO_LEVEL_REG parity_error_trace) = 1%nat.
Proof.
  split; [vm_compute; auto|]. split; [reflexivity|]. split; [discriminate|].
  apply (error_register_error TRANSCEIVE [REQUEST_A] default_timeout
           parity_error_state ERROR [] 0 parity_error_trace 0x02).
  - vm_compute. auto.
  - reflexivity.
  - discriminate.
Defined.

(** X16: whatever the command and the result, the data returned are exactly
    the bytes read from the FIFO data register during the call, never more
    than 16 of them; data come only with the transceive command and never
    with TIMEOUT, and the status is never AUTH_ERROR. *)
Theorem data_is_what_was_read command send_data timeout s status back_data
        back_len tr :
  returns (_communicate_with_card command send_data timeout) s
          (status, back_data, back_len) tr ->
  back_data = reads FIFO_DATA_REG tr /\
  (length back_data <= 16)%nat /\
  status <> AUTH_ERROR /\
  (back_data <> [] -> command = TRANSCEIVE /\ status <> TIMEOUT).
Proof.
  intros R. apply communicate_inv in R.
  inversion R as [fl0 bf0 t0 polled n bf1 now tail r P E Htr Hr]; subst;
    clear R.
  rewrite !(reads_comm _ _ _ _ _ _ _ _ _ _ _ _ _ _ P) by discriminate.
  inversion E as [L | e L Er | e v L Er Hn C | e v fl c data L Er Hn C Hlen];
    subst; read_tail.
  - repeat split; try discriminate; try (cbn; lia); congruence.
  - repeat split; try discriminate; try (cbn; lia); congruence.
  - repeat split; try (cbn; lia); try congruence;
      destruct (truthy (Z.land v 1)); discriminate.
  - split; [reflexivity|]. split.
    { rewrite Hlen. destruct (Z.eqb_spec fl 0); [cbn; lia|].
      destruct (Z.gtb_spec fl 16); lia. }
    split; [destruct (truthy (Z.land v 1)); discriminate|].
    intros _. split; [now apply Z.eqb_eq|].
    destruct (truthy (Z.land v 1)); discriminate.
Qed.

Lemma data_is_what_was_read_witness :
  returns (_communicate_with_card TRANSCEIVE [REQUEST_A] default_timeout)
          overflow_state (OK, repeat 0 16, 155) overflow_trace /\
  repeat 0 16 = reads FIFO_DATA_REG overflow_trace /\
  (length (repeat 0 16) <= 16)%nat /\
  OK <> AUTH_ERROR /\
  (repeat 0 16 <> [] -> TRANSCEIVE = TRANSCEIVE /\ OK <> TIMEOUT).
Proof.
  split; [vm_compute; auto|].
  apply (data_is_what_was_read TRANSCEIVE [REQUEST_A] default_timeout
           overflow_state OK (repeat 0 16) 155 overflow_trace).
  vm_compute. auto.
Defined.

(** X17: status OK means that the call passed the deadline check, read an
    error register without any of the bits 0x1B, and that the flags polling
    ended on have the timer bit (0x01) clear. *)
Theorem ok_means_clean command send_data timeout s back_data back_len tr :
  returns (_communicate_with_card command send_data timeout) s
          (OK, back_data, back_len) tr ->
  exists err earlier flags,
    reads ERROR_REG tr = [err] /\ Z.land err 0x1B = 0 /\
    reads COM_IRQ_REG tr = earlier ++ [flags] /\ Z.land flags 0x01 = 0.
Proof.
  intros R. apply communicate_inv in R.
  inversion R as [fl0 bf0 t0 polled n bf1 now tail r P E Htr Hr]; subst;
    clear R.
  rewrite (reads_comm_irq _ _ _ _ _ _ _ _ _ _ _ _ _ _ _ P E).
  rewrite (reads_comm _ _ _ _ _ _ _ _ _ _ _ _ _ _ P) by discriminate.
  destruct (poll_trace_flags _ _ _ _ _ P) as [(Rd & Hn0) | (ea & v0 & Rd & Hn0 & _)].
  - subst n.
    inversion E as [L | e L Er | e v L Er Hn C | e v fl c data L Er Hn C Hlen];
      discriminate.
  - subst n. rewrite Rd.
    inversion E as [L | e L Er | e v L Er Hn C | e v fl c data L Er Hn C Hlen];
      subst; read_tail; inversion Hn; subst v;
      destruct (truthy (Z.land v0 1)) eqn:T; try discriminate;
      apply truthy_false in T; apply truthy_false in Er;
      exists e, ea, v0; auto.
Qed.

Lemma ok_means_clean_witness :
  returns (_communicate_with_card TRANSCEIVE [REQUEST_A] default_timeout)
          atqa_state (OK, [0x04; 0x00], 16) atqa_trace /\
  exists err earlier flags,
    reads ERROR_REG atqa_trace = [err] /\ Z.land err 0x1B = 0 /\
    reads COM_IRQ_REG atqa_trace = earlier ++ [flags] /\
    Z.land flags 0x01 = 0.
Proof.
  split; [vm_compute; auto|].
  apply (ok_means_clean TRANSCEIVE [REQUEST_A] default_timeout atqa_state
           [0x04; 0x00] 16 atqa_trace).
  vm_compute. auto.
Defined.

(** X18: polling stops at the first flags with a done bit (mask 0x30):
    every value read from the interrupt register that is followed by
    another read had no done bit. *)
Theorem polling_stops_at_done command send_data timeout s r tr before flags
        after :
  returns (_communicate_with_card command send_data timeout) s r tr ->
  reads COM_IRQ_REG tr = before ++ flags :: after ->
  after <> [] ->
  Z.land flags wait_irq = 0.
Proof.
  intros R Hi Ha. apply communicate_inv in R.
  inversion R as [fl0 bf0 t0 polled n bf1 now tail r' P E Htr Hr]; subst;
    clear R.
  rewrite (reads_comm_irq _ _ _ _ _ _ _ _ _ _ _ _ _ _ _ P E) in Hi.
  destruct (poll_trace_flags _ _ _ _ _ P) as [(Rd & _) | (ea & v0 & Rd & _ & F)].
  - rewrite Rd in Hi. destruct before; discriminate.
  - destruct (exists_last Ha) as (a' & x & ->).
    rewrite Rd in Hi.
    change (before ++ flags :: a' ++ [x])
      with (before ++ (flags :: a') ++ [x]) in Hi.
    rewrite app_assoc in Hi. apply app_inj_tail in Hi as (-> & _).
    rewrite Forall_forall in F. apply F.
    apply in_or_app. right. now left.
Qed.

Lemma polling_stops_at_done_witness :
  returns (_communicate_with_card TRANSCEIVE [REQUEST_A] default_timeout)
          atqa_state (OK, [0x04; 0x00], 16) atqa_trace /\
  reads COM_IRQ_REG atqa_trace = [] ++ 0x00 :: [0x30] /\
  [0x30] <> [] /\
  Z.land 0x00 wait_irq = 0.
Proof.
  split; [vm_compute; auto|]. split; [reflexivity|].
  split; [discriminate|].
  apply (polling_stops_at_done TRANSCEIVE [REQUEST_A] default_timeout
           atqa_state (OK, [0x04; 0x00], 16) atqa_trace [] 0x00 [0x30]).
  - vm_compute. auto.
  - reflexivity.
  - discriminate.
Defined.

(** ** Transceive engine: deadline and the clock *)

Lemma Qltb_true a b : Qltb a b = true <-> (a < b)%Q.
Proof.
  unfold Qltb. rewrite negb_true_iff. split.
  - intros H. apply Qnot_le_lt. intros L. apply Qle_bool_iff in L. congruence.
  - intros H. destruct (Qle_bool b a) eqn:E; [|reflexivity].
    apply Qle_bool_iff in E. apply Qle_not_lt in E. contradiction.
Qed.


(** X19: with a timeout that is not positive and a clock that does not run
    backwards, a returning call has polled nothing: it never reads the
    interrupt register and its status is TIMEOUT. *)
Theorem nonpositive_timeout command send_data timeout s status back_data
        back_len tr :
  returns (_communicate_with_card command send_data timeout) s
          (status, back_data, back_len) tr ->
  (timeout <= 0)%Q ->
  nondecreasing (clocks tr) = true ->
  status = TIMEOUT /\ reads COM_IRQ_REG tr = [].
Proof.
  intros R Hto Mono. apply communicate_inv in R.
  inversion R as [fl0 bf0 t0 polled n bf1 now tail r P E Htr Hr]; subst;
    clear R.
  rewrite (clocks_comm _ _ _ _ _ _ _ _ _ _ _ _ _ E) in Mono.
  rewrite (reads_comm_irq _ _ _ _ _ _ _ _ _ _ _ _ _ _ _ P E).
  inversion P as [n0 first L | n0 first v L W | n0 first v tr' n' L W P'];
    subst; rewrite ?clocks_cons in Mono; cbn [app] in Mono;
    apply nondecreasing_head in Mono as (H1 & Mono).
  - cbn [clocks flat_map app] in Mono.
    apply nondecreasing_head in Mono as (H2 & _).
    assert (Qgeb (now - t0)%Q timeout = true) as Late
      by (apply Qle_bool_iff; lra).
    split; [|reflexivity].
    inversion E; subst; try congruence.
  - apply Qltb_true in L. lra.
  - apply Qltb_true in L. lra.
Qed.

Lemma nonpositive_timeout_witness :
  returns (_communicate_with_card TRANSCEIVE [REQUEST_A] 0%Q)
          zero_timeout_state (TIMEOUT, [], 0) zero_timeout_trace /\
  (0 <= 0)%Q /\
  nondecreasing (clocks zero_timeout_trace) = true /\
  TIMEOUT = TIMEOUT /\ reads COM_IRQ_REG zero_timeout_trace = [].
Proof.
  split; [vm_compute; auto|]. split; [apply Qle_refl|].
  split; [reflexivity|].
  apply (nonpositive_timeout TRANSCEIVE [REQUEST_A] 0%Q zero_timeout_state
           TIMEOUT [] 0 zero_timeout_trace).
  - vm_compute. auto.
  - apply Qle_refl.
  - reflexivity.
Defined.









(** ** Card discovery: frames sent and results passed on *)

(** X21: [request] reports only two outcomes: OK with a payload of exactly
    two bytes, or ERROR without payload.  TIMEOUT is never passed on. *)
Theorem request_status_normalised s status payload s' :
  request s = Ret (status, payload) s' ->
  (status = OK /\ exists a b, payload = Some [a; b]) \/
  (status = ERROR /\ payload = None).
Proof.
  unfold request, bind.
  destruct (_write_register BIT_FRAMING_REG 7 s) as [u s1| |];
    try discriminate.
  destruct (_communicate_with_card TRANSCEIVE [REQUEST_A] default_timeout s1)
    as [[[st data] bl] s2| |]; try discriminate.
  destruct (StatusCodes.eqb st OK) eqn:Es;
    destruct (Nat.eqb_spec (length data) 2) as [El|El];
    cbn [negb orb]; unfold ret; intros H; inversion H; subst; auto.
  left. apply status_eqb_eq in Es. split; [exact Es|].
  destruct data as [|a [|b [|c data]]]; try discriminate. eauto.
Qed.

Lemma request_status_normalised_witness :
  let o := request atqa_state in
  o = Ret (OK, Some [0x04; 0x00]) (state_after o) /\
  ((OK = OK /\ exists a b, Some [0x04; 0x00] = Some [a; b]) \/
   (OK = ERROR /\ Some [0x04; 0x00] = None)).
Proof.
  intros o. split; [vm_compute; reflexivity|].
  apply (request_status_normalised atqa_state OK (Some [0x04; 0x00])
           (state_after o)).
  vm_compute. reflexivity.
Defined.

(** X22: [anticoll] reports only two outcomes: OK with a payload of exactly
    four bytes, or ERROR without payload.  TIMEOUT is never passed on, and
    the checksum byte is never part of the payload. *)
Theorem anticoll_status_normalised s status payload s' :
  anticoll s = Ret (status, payload) s' ->
  (status = OK /\ exists b0 b1 b2 b3, payload = Some [b0; b1; b2; b3]) \/
  (status = ERROR /\ payload = None).
Proof.
  unfold anticoll, bind.
  destruct (_write_register BIT_FRAMING_REG 0 s) as [u s1| |];
    try discriminate.
  destruct (_communicate_with_card TRANSCEIVE [ANTICOLL_1; 32]
              default_timeout s1)
    as [[[st data] bl] s2| |]; try discriminate.
  destruct (StatusCodes.eqb st OK) eqn:Es;
    destruct (Nat.eqb_spec (length data) 5) as [El|El];
    cbn [andb]; unfold ret;
    try (intros H; inversion H; subst; now auto).
  destruct (negb _); intros H; inversion H; subst; auto.
  left. split; [reflexivity|].
  destruct data as [|b0 [|b1 [|b2 [|b3 [|b4 [|b5 data]]]]]]; try discriminate.
  cbn. eauto.
Qed.

Lemma anticoll_status_normalised_witness :
  let o := anticoll (uid_state 0x08) in
  o = Ret (OK, Some [0x12; 0x34; 0x56; 0x78]) (state_after o) /\
  ((OK = OK /\
    exists b0 b1 b2 b3, Some [0x12; 0x34; 0x56; 0x78] = Some [b0; b1; b2; b3])
   \/ (OK = ERROR /\ Some [0x12; 0x34; 0x56; 0x78] = None)).
Proof.
  intros o. split; [vm_compute; reflexivity|].
  apply (anticoll_status_normalised (uid_state 0x08) OK
           (Some [0x12; 0x34; 0x56; 0x78]) (state_after o)).
  vm_compute. reflexivity.
Defined.

(** What the trace of a transceive run says about the frame sent. *)
Lemma comm_trace_frame command send_data timeout tr r :
  comm_trace command send_data timeout tr r ->
  writes FIFO_DATA_REG tr = send_data /\
  writes COMMAND_REG tr = [IDLE; command] /\
  forall v, writes BIT_FRAMING_REG (RegWrite BIT_FRAMING_REG v :: tr)
            <> [] .
Proof.
  intros R.
  inversion R as [fl0 bf0 t0 polled n bf1 now tail r' P E Htr Hr]; subst;
    clear R.
  rewrite !(writes_comm _ _ _ _ _ _ _ _ _ _ _ _ _ _ _ _ P E).
  read_tail.
  destruct (command =? TRANSCEIVE); cbn [app]; rewrite ?app_nil_r;
    repeat split; auto; intros v; rewrite writes_cons; discriminate.
Qed.

(** A transceive run with status OK drained the FIFO: it read the level a
    second time and returned the bytes read from the FIFO data register. *)
Lemma comm_trace_ok_drained send_data timeout tr back_data back_len :
  comm_trace TRANSCEIVE send_data timeout tr (OK, back_data, back_len) ->
  back_data = reads FIFO_DATA_REG tr /\
  exists flushed fifo_level,
    reads FIFO_LEVEL_REG tr = [flushed; fifo_level] /\
    length back_data =
      Z.to_nat (let f := if fifo_level =? 0 then 1 else fifo_level in
                if f >? 16 then 16 else f).
Proof.
  intros R.
  inversion R as [fl0 bf0 t0 polled n bf1 now tail r' P E Htr Hr]; subst;
    clear R.
  rewrite !(reads_comm _ _ _ _ _ _ _ _ _ _ _ _ _ _ P) by discriminate.
  inversion E as [L | e L Er | e v L Er Hn C | e v fl c data L Er Hn C Hlen];
    subst; read_tail; try discriminate.
  split; [reflexivity|]. exists fl0, fl. auto.
Qed.

Lemma drain_count_inv fifo_level k :
  (2 <= k)%nat ->
  k = Z.to_nat (let f := if fifo_level =? 0 then 1 else fifo_level in
                if f >? 16 then 16 else f) ->
  (k <= 15)%nat ->
  fifo_level = Z.of_nat k.
Proof.
  cbv zeta. intros H2 E H15.
  destruct (Z.eqb_spec fifo_level 0); [subst; cbn in *; lia|].
  destruct (Z.gtb_spec fifo_level 16); lia.
Qed.

Lemma request_shape s r s' :
  request s = Ret r s' ->
  exists s1 st data bl,
    _write_register BIT_FRAMING_REG 0x07 s = Ret tt s1 /\
    _communicate_with_card TRANSCEIVE [REQUEST_A] default_timeout s1 =
      Ret (st, data, bl) s' /\
    r = if negb (StatusCodes.eqb st OK) || negb (length data =? 2)%nat
        then (ERROR, None) else (st, Some data).
Proof.
  unfold request, bind.
  destruct (_write_register BIT_FRAMING_REG 7 s) as [[] s1| |] eqn:W;
    try discriminate.
  destruct (_communicate_with_card TRANSCEIVE [REQUEST_A] default_timeout s1)
    as [[[st data] bl] s2| |] eqn:C; try discriminate.
  intros H. exists s1, st, data, bl.
  destruct (negb (StatusCodes.eqb st OK) || negb (length data =? 2)%nat);
    unfold ret in H; inversion H; subst; auto.
Qed.

Lemma anticoll_shape s r s' :
  anticoll s = Ret r s' ->
  exists s1 st data bl,
    _write_register BIT_FRAMING_REG 0x00 s = Ret tt s1 /\
    _communicate_with_card TRANSCEIVE [ANTICOLL_1; 0x20] default_timeout s1 =
      Ret (st, data, bl) s' /\
    (r = (ERROR, None) \/
     r = (OK, Some (firstn 4 data)) /\ st = OK /\ length data = 5%nat).
Proof.
  unfold anticoll, bind.
  destruct (_write_register BIT_FRAMING_REG 0 s) as [[] s1| |] eqn:W;
    try discriminate.
  destruct (_communicate_with_card TRANSCEIVE [ANTICOLL_1; 32]
              default_timeout s1)
    as [[[st data] bl] s2| |] eqn:C; try discriminate.
  intros H. exists s1, st, data, bl.
  destruct (StatusCodes.eqb st OK) eqn:Es;
    destruct (Nat.eqb_spec (length data) 5) as [El|El];
    cbn [andb] in H;
    try (unfold ret in H; inversion H; subst; now auto).
  apply status_eqb_eq in Es.
  destruct (negb _) in H; unfold ret in H; inversion H; subst; auto 6.
Qed.

(** X23: a returning [request] first writes 0x07 to the bit-framing
    register (a short frame of 7 bits), then runs a transceive whose frame
    is the single byte REQUEST_A.  When it reports OK, the chip had
    announced a FIFO level of exactly 2 and the payload is the two bytes
    read from the FIFO data register. *)
Theorem request_frame s status payload tr :
  returns request s (status, payload) tr ->
  (exists rest, tr = RegWrite BIT_FRAMING_REG 0x07 :: rest) /\
  writes FIFO_DATA_REG tr = [REQUEST_A] /\
  writes COMMAND_REG tr = [IDLE; TRANSCEIVE] /\
  (status = OK ->
   payload = Some (reads FIFO_DATA_REG tr) /\
   exists flushed, reads FIFO_LEVEL_REG tr = [flushed; 2]).
Proof.
  intros R. apply returns_inv in R as (s' & H & L).
  apply request_shape in H as (s1 & st & data & bl & W & C & Er).
  apply write_inv in W as (L1 & _); [|reg_ok].
  apply communicate_run in C as (rest & L2 & T).
  assert (tr = RegWrite BIT_FRAMING_REG 0x07 :: rest) as ->.
  { apply (app_inv_head (log s)).
    rewrite <- L, L2, L1, <- app_assoc. reflexivity. }
  destruct (comm_trace_frame _ _ _ _ _ T) as (Wd & Wc & _).
  rewrite !writes_cons, !reads_cons. read_tail.
  split; [eauto|]. split; [exact Wd|]. split; [exact Wc|].
  intros ->.
  destruct (StatusCodes.eqb st OK) eqn:Es;
    destruct (Nat.eqb_spec (length data) 2) as [El|El];
    cbn [negb orb] in Er; inversion Er; subst.
  destruct (comm_trace_ok_drained _ _ _ _ _ T) as (D & fl0 & fl & Rl & Hlen).
  split; [now rewrite <- D|].
  exists fl0. rewrite Rl. rewrite El in Hlen.
  now rewrite (drain_count_inv fl 2) by (auto; lia).
Qed.

Lemma request_frame_witness :
  returns request atqa_state (OK, Some [0x04; 0x00])
          (RegWrite BIT_FRAMING_REG 0x07 :: atqa_trace) /\
  (exists rest,
     RegWrite BIT_FRAMING_REG 0x07 :: atqa_trace =
     RegWrite BIT_FRAMING_REG 0x07 :: rest) /\
  writes FIFO_DATA_REG (RegWrite BIT_FRAMING_REG 0x07 :: atqa_trace) =
    [REQUEST_A] /\
  writes COMMAND_REG (RegWrite BIT_FRAMING_REG 0x07 :: atqa_trace) =
    [IDLE; TRANSCEIVE] /\
  (OK = OK ->
   Some [0x04; 0x00] =
   Some (reads FIFO_DATA_REG (RegWrite BIT_FRAMING_REG 0x07 :: atqa_trace)) /\
   exists flushed,
     reads FIFO_LEVEL_REG (RegWrite BIT_FRAMING_REG 0x07 :: atqa_trace) =
     [flushed; 2]).
Proof.
  split; [vm_compute; auto|].
  apply (request_frame atqa_state OK (Some [0x04; 0x00])
           (RegWrite BIT_FRAMING_REG 0x07 :: atqa_trace)).
  vm_compute. auto.
Defined.

(** X24: a returning [anticoll] first writes 0x00 to the bit-framing
    register (whole bytes), then runs a transceive whose frame is
    ANTICOLL_1 followed by 0x20.  When it reports OK, the chip had
    announced a FIFO level of exactly 5 and the payload is the first four
    of the five bytes read from the FIFO data register. *)
Theorem anticoll_frame s status payload tr :
  returns anticoll s (status, payload) tr ->
  (exists rest, tr = RegWrite BIT_FRAMING_REG 0x00 :: rest) /\
  writes FIFO_DATA_REG tr = [ANTICOLL_1; 0x20] /\
  writes COMMAND_REG tr = [IDLE; TRANSCEIVE] /\
  (status = OK ->
   exists uid checksum flushed,
     payload = Some uid /\ length uid = 4%nat /\
     reads FIFO_DATA_REG tr = uid ++ [checksum] /\
     reads FIFO_LEVEL_REG tr = [flushed; 5]).
Proof.
  intros R. apply returns_inv in R as (s' & H & L).
  apply anticoll_shape in H as (s1 & st & data & bl & W & C & Er).
  apply write_inv in W as (L1 & _); [|reg_ok].
  apply communicate_run in C as (rest & L2 & T).
  assert (tr = RegWrite BIT_FRAMING_REG 0x00 :: rest) as ->.
  { apply (app_inv_head (log s)).
    rewrite <- L, L2, L1, <- app_assoc. reflexivity. }
  destruct (comm_trace_frame _ _ _ _ _ T) as (Wd & Wc & _).
  rewrite !writes_cons, !reads_cons. read_tail.
  split; [eauto|]. split; [exact Wd|]. split; [exact Wc|].
  intros ->. destruct Er as [Er | (Er & -> & El)]; [discriminate|].
  inversion Er; subst payload.
  destruct (comm_trace_ok_drained _ _ _ _ _ T) as (D & fl0 & fl & Rl & Hlen).
  destruct data as [|b0 [|b1 [|b2 [|b3 [|b4 [|b5 data]]]]]]; try discriminate.
  exists [b0; b1; b2; b3], b4, fl0.
  split; [reflexivity|]. split; [reflexivity|]. split; [now rewrite <- D|].
  rewrite Rl. now rewrite (drain_count_inv fl 5) by (auto; cbn; lia).
Qed.

Lemma anticoll_frame_witness :
  returns anticoll (uid_state 0x08) (OK, Some [0x12; 0x34; 0x56; 0x78])
          uid_trace /\
  (exists rest, uid_trace = RegWrite BIT_FRAMING_REG 0x00 :: rest) /\
  writes FIFO_DATA_REG uid_trace = [ANTICOLL_1; 0x20] /\
  writes COMMAND_REG uid_trace = [IDLE; TRANSCEIVE] /\
  (OK = OK ->
   exists uid checksum flushed,
     Some [0x12; 0x34; 0x56; 0x78] = Some uid /\ length uid = 4%nat /\
     reads FIFO_DATA_REG uid_trace = uid ++ [checksum] /\
     reads FIFO_LEVEL_REG uid_trace = [flushed; 5]).
Proof.
  split; [vm_compute; auto|].
  apply (anticoll_frame (uid_state 0x08) OK (Some [0x12; 0x34; 0x56; 0x78])
           uid_trace).
  vm_compute. auto.
Defined.

(** ** The polling applications *)

Lemma shown_after_app shown rs1 rs2 :
  shown_after shown (rs1 ++ rs2) = shown_after (shown_after shown rs1) rs2.
Proof.
  revert shown. induction rs1 as [|[uid|] rs1 IH]; intros shown; cbn; auto.
Qed.

Lemma reported_once_app shown rs1 rs2 :
  reported_once shown (rs1 ++ rs2) =
  reported_once shown rs1 && reported_once (shown_after shown rs1) rs2.
Proof.
  revert shown. induction rs1 as [|[uid|] rs1 IH]; intros shown; cbn; auto.
  - rewrite IH. now rewrite andb_assoc.
  - destruct shown; auto.
Qed.

Lemma bytes_eqb_refl a : bytes_eqb a a = true.
Proof. induction a as [|x a IH]; cbn; [|rewrite Z.eqb_refl]; auto. Qed.

Lemma bytes_eqb_eq a b : bytes_eqb a b = true <-> a = b.
Proof.
  split; [|intros ->; apply bytes_eqb_refl].
  revert b. induction a as [|x a IH]; intros [|y b]; cbn; try discriminate.
  - reflexivity.
  - intros H. apply andb_true_iff in H as (E & H).
    apply Z.eqb_eq in E. subst. f_equal. auto.
Qed.

(** One iteration of [main] reports nothing, one new card, or the removal
    of the card on display. *)
Lemma main_iteration_step last_uid s r s' :
  main_iteration last_uid s = Ret r s' ->
  exists rs,
    r = Next (shown_after last_uid rs, flat_map render rs) /\
    reported_once last_uid rs = true.
Proof.
  unfold main_iteration, bind.
  destruct (request s) as [[st p] s1| |] eqn:R; try discriminate.
  destruct (StatusCodes.eqb st OK).
  - destruct (anticoll s1) as [[st2 uid] s2| |] eqn:A; try discriminate.
    apply anticoll_shape in A as (s3 & st3 & data & bl & _ & _ & E).
    destruct E as [E | (E & _)]; apply pair_equal_spec in E as (-> & ->).
    + change (StatusCodes.eqb ERROR OK) with false.
      unfold ret, sleep, emit. intros H. inversion H. now exists [].
    + change (StatusCodes.eqb OK OK) with true.
      generalize (firstn 4 data). intros uid.
      destruct (uid_eqb (Some uid) last_uid) eqn:U;
        cbn [negb]; unfold ret, sleep, emit; intros H; inversion H.
      * now exists [].
      * exists [Card uid].
        cbn [flat_map render shown_after reported_once].
        rewrite U, app_nil_r. auto.
  - destruct last_uid as [u|]; unfold ret, sleep, emit;
      intros H; inversion H.
    + now exists [Gone].
    + now exists [].
Qed.

(** X25: in the output of any number of iterations of the loop of [main]
    in [example.py], no card is reported twice in a row, and a removal is
    reported only for a card reported before (or on display at the start).
    The iterations never end in a [TypeError]. *)
Theorem main_reports_each_card_once n last_uid out s r s' :
  main_loop n last_uid out s = Ret r s' ->
  exists rs,
    r = Next (shown_after last_uid rs, out ++ flat_map render rs) /\
    reported_once last_uid rs = true.
Proof.
  revert last_uid out s.
  induction n as [|n IH]; intros last_uid out s; cbn [main_loop].
  - unfold ret. intros H. inversion H. exists []. cbn.
    now rewrite app_nil_r.
  - unfold bind.
    destruct (main_iteration last_uid s) as [r1 s1| |] eqn:I;
      try discriminate.
    apply main_iteration_step in I as (rs1 & -> & O1).
    intros H. apply IH in H as (rs2 & -> & O2).
    exists (rs1 ++ rs2).
    rewrite shown_after_app, reported_once_app, O1, O2, flat_map_app.
    now rewrite app_assoc.
Qed.

Lemma main_reports_each_card_once_witness :
  let o := main_loop 2 None [] card_stays_state in
  o = Ret (Next (Some [0x12; 0x34; 0x56; 0x78],
                 card_block [0x12; 0x34; 0x56; 0x78])) (state_after o) /\
  exists rs,
    Next (Some [0x12; 0x34; 0x56; 0x78], card_block [0x12; 0x34; 0x56; 0x78])
    = Next (shown_after None rs, [] ++ flat_map render rs) /\
    reported_once None rs = true.
Proof.
  intros o. split; [vm_compute; reflexivity|].
  apply (main_reports_each_card_once 2 None [] card_stays_state _
           (state_after o)).
  vm_compute. reflexivity.
Defined.

Lemma library_iteration_step last_uid s r s' :
  library_iteration last_uid s = Ret r s' ->
  exists last_uid' uids,
    r = Next (last_uid', map detected_line uids) /\
    (length uids <= 1)%nat /\
    Forall (fun uid => length uid = 4%nat /\ Some uid <> last_uid) uids.
Proof.
  unfold library_iteration, bind.
  destruct (request s) as [[st p] s1| |] eqn:R; try discriminate.
  destruct (StatusCodes.eqb st OK).
  - destruct (anticoll s1) as [[st2 uid] s2| |] eqn:A; try discriminate.
    apply anticoll_shape in A as (s3 & st3 & data & bl & _ & _ & E).
    destruct E as [E | (E & _ & El)]; apply pair_equal_spec in E as (-> & ->).
    + change (StatusCodes.eqb ERROR OK) with false.
      unfold ret, sleep, emit. intros H. inversion H.
      exists None, []. cbn. auto.
    + change (StatusCodes.eqb OK OK) with true.
      assert (Hu : length (firstn 4 data) = 4%nat)
        by (rewrite length_firstn, El; reflexivity).
      revert Hu. generalize (firstn 4 data). intros uid Hu.
      destruct (uid_eqb (Some uid) last_uid) eqn:U;
        cbn [negb]; unfold ret, sleep, emit; intros H; inversion H.
      * exists last_uid, []. cbn. auto.
      * exists (Some uid), [uid]. cbn.
        split; [reflexivity|]. split; [lia|].
        constructor; [|constructor]. split; [exact Hu|].
        intros <-. cbn in U. now rewrite bytes_eqb_refl in U.
  - unfold ret, sleep, emit. intros H. inversion H.
    exists None, []. cbn. auto.
Qed.

(** X26: the example loop at the end of [rc522_spi_library.py] prints
    nothing but detection lines, at most one for each iteration; every
    printed UID has four bytes.  The iterations never end in a
    [TypeError]. *)
Theorem library_loop_prints_detections n last_uid out s r s' :
  library_loop n last_uid out s = Ret r s' ->
  exists last_uid' uids,
    r = Next (last_uid', out ++ map detected_line uids) /\
    (length uids <= n)%nat /\
    Forall (fun uid => length uid = 4%nat) uids.
Proof.
  revert last_uid out s.
  induction n as [|n IH]; intros last_uid out s; cbn [library_loop].
  - unfold ret. intros H. inversion H. exists last_uid, []. cbn.
    rewrite app_nil_r. auto.
  - unfold bind.
    destruct (library_iteration last_uid s) as [r1 s1| |] eqn:I;
      try discriminate.
    apply library_iteration_step in I as (l1 & u1 & -> & L1 & F1).
    intros H. apply IH in H as (l2 & u2 & -> & L2 & F2).
    exists l2, (u1 ++ u2).
    rewrite map_app, app_assoc, length_app.
    split; [reflexivity|]. split; [lia|].
    apply Forall_app. split; [|exact F2].
    eapply Forall_impl; [|exact F1]. cbn. tauto.
Qed.

Lemma library_loop_prints_detections_witness :
  let o := library_loop 2 None [] card_stays_state in
  o = Ret (Next (Some [0x12; 0x34; 0x56; 0x78],
                 [detected_line [0x12; 0x34; 0x56; 0x78]])) (state_after o) /\
  exists last_uid' uids,
    Next (Some [0x12; 0x34; 0x56; 0x78],
          [detected_line [0x12; 0x34; 0x56; 0x78]]) =
    Next (last_uid', [] ++ map detected_line uids) /\
    (length uids <= 2)%nat /\
    Forall (fun uid => length uid = 4%nat) uids.
Proof.
  intros o. split; [vm_compute; reflexivity|].
  apply (library_loop_prints_detections 2 None [] card_stays_state _
           (state_after o)).
  vm_compute. reflexivity.
Defined.

(** ** Scenarios of the specification *)

Example request_atqa_scenario :
  exists tr, returns request atqa_state (OK, Some [0x04; 0x00]) tr.
Proof. eexists (_ :: atqa_trace). vm_compute. auto. Qed.

Example anticoll_uid_scenario :
  exists tr,
    returns anticoll (uid_state (Z.lxor (Z.lxor (Z.lxor 0x12 0x34) 0x56) 0x78))
            (OK, Some [0x12; 0x34; 0x56; 0x78]) tr.
Proof.
  exists (skipn 0 (log (state_after
            (anticoll (uid_state 0x08))))).
  vm_compute. auto.
Qed.

Example anticoll_flipped_checksum_scenario :
  exists tr, returns anticoll (uid_state 0x09) (ERROR, None) tr.
Proof.
  exists (log (state_after (anticoll (uid_state 0x09)))).
  vm_compute. auto.
Qed.
